(** * GoGraphSMTP: the SMTP session pipeline of [main.go]

    A shallow embedding of the session methods ([AuthPlain], [Mail], [Rcpt],
    [Data], [Reset], [Logout]) and of [parseHeaders], together with the parts
    of Go's [strings], [unicode] and [unicode/utf8] packages they call.

    Go strings are byte sequences: they are embedded as [string] (a list of
    8-bit [ascii] characters).  A Go [map[string]string] is a
    [gmap string string]; reading a missing key gives the empty string. *)

From Stdlib Require Import Ascii NArith ZArith Lia.
From stdpp Require Import base option list strings gmap.

Local Open Scope N_scope.

(** ** Bytes and slices *)

Definition byte_val (c : ascii) : N := N_of_ascii c.

(** [s[n:]] *)
Fixpoint slice_from (n : nat) (s : string) : string :=
  match n, s with
  | O, _ => s
  | S n', String _ s' => slice_from n' s'
  | S _, EmptyString => EmptyString
  end.

(** [s[:n]] *)
Fixpoint slice_to (n : nat) (s : string) : string :=
  match n, s with
  | S n', String c s' => String c (slice_to n' s')
  | _, _ => EmptyString
  end.

(** [s[i]] for an index inside the string (0 outside, where Go panics; every
    use below is guarded by a bounds test). *)
Definition byte_at (s : string) (i : nat) : N :=
  match String.get i s with
  | Some c => byte_val c
  | None => 0
  end.

Definition CR : ascii := "013"%char.
Definition LF : ascii := "010"%char.
Definition TAB : ascii := "009"%char.
Definition DQUOTE : ascii := "034"%char.

(** The literals ["\r\n"], ["\r\n\r\n"], ["\t"] and ["\n"] of the source. *)
Definition CRLF : string := String CR (String LF "").
Definition CRLFCRLF : string := CRLF +:+ CRLF.
Definition TABs : string := String TAB "".
Definition NL : string := String LF "".

(** ** Package [unicode/utf8] *)
Module utf8.

Definition RuneError : N := 0xFFFD.
Definition RuneSelf : N := 0x80.
Definition UTFMax : nat := 4.
Definition locb : N := 0x80.
Definition hicb : N := 0xBF.

(** The table [first] with [acceptRanges]: for a leading byte of a
    multi-byte sequence, the length of the sequence and the range allowed
    for its second byte; [None] for the entries [xx] (and for ASCII, which
    the decoder handles before it looks here). *)
Definition first (b : N) : option (nat * (N * N)) :=
  if b <? 0xC2 then None
  else if b <=? 0xDF then Some (2%nat, (locb, hicb))
  else if b =? 0xE0 then Some (3%nat, (0xA0, hicb))
  else if b <=? 0xEC then Some (3%nat, (locb, hicb))
  else if b =? 0xED then Some (3%nat, (locb, 0x9F))
  else if b <=? 0xEF then Some (3%nat, (locb, hicb))
  else if b =? 0xF0 then Some (4%nat, (0x90, hicb))
  else if b <=? 0xF3 then Some (4%nat, (locb, hicb))
  else if b =? 0xF4 then Some (4%nat, (locb, 0x8F))
  else None.

Definition cont_ok (b : N) : bool := (locb <=? b) && (b <=? hicb).

(** [utf8.DecodeRuneInString]: the first rune of [s] and its width. *)
Definition DecodeRuneInString (s : string) : N * nat :=
  match s with
  | EmptyString => (RuneError, 0%nat)
  | String c0 t0 =>
    let s0 := byte_val c0 in
    if s0 <? RuneSelf then (s0, 1%nat)
    else match first s0 with
    | None => (RuneError, 1%nat)
    | Some (sz, (lo, hi)) =>
      if (String.length s <? sz)%nat then (RuneError, 1%nat)
      else match t0 with
      | EmptyString => (RuneError, 1%nat)
      | String c1 t1 =>
        let s1 := byte_val c1 in
        if (s1 <? lo) || (hi <? s1) then (RuneError, 1%nat)
        else if (sz <=? 2)%nat then
          (N.lor (N.shiftl (N.land s0 0x1F) 6) (N.land s1 0x3F), 2%nat)
        else match t1 with
        | EmptyString => (RuneError, 1%nat)
        | String c2 t2 =>
          let s2 := byte_val c2 in
          if negb (cont_ok s2) then (RuneError, 1%nat)
          else if (sz <=? 3)%nat then
            (N.lor (N.lor (N.shiftl (N.land s0 0x0F) 12)
                          (N.shiftl (N.land s1 0x3F) 6))
                   (N.land s2 0x3F), 3%nat)
          else match t2 with
          | EmptyString => (RuneError, 1%nat)
          | String c3 _ =>
            let s3 := byte_val c3 in
            if negb (cont_ok s3) then (RuneError, 1%nat)
            else
              (N.lor (N.lor (N.lor (N.shiftl (N.land s0 0x07) 18)
                                   (N.shiftl (N.land s1 0x3F) 12))
                            (N.shiftl (N.land s2 0x3F) 6))
                     (N.land s3 0x3F), 4%nat)
          end
        end
      end
    end
  end.

(** [utf8.RuneStart]: the byte is not a continuation byte. *)
Definition RuneStart (b : N) : bool := negb (N.land b 0xC0 =? 0x80).

(** The backward scan of [DecodeLastRuneInString]:
    [for start--; start >= lim; start-- { if RuneStart(s[start]) { break } }],
    entered with [start] already decremented. *)
Fixpoint lookback (fuel : nat) (s : string) (start lim : Z) : Z :=
  match fuel with
  | O => start
  | S fuel' =>
    if (start <? lim)%Z then start
    else if RuneStart (byte_at s (Z.to_nat start)) then start
    else lookback fuel' s (start - 1)%Z lim
  end.

(** [utf8.DecodeLastRuneInString]: the last rune of [s] and its width. *)
Definition DecodeLastRuneInString (s : string) : N * nat :=
  let end_ := String.length s in
  if (end_ =? 0)%nat then (RuneError, 0%nat)
  else
    let start := (end_ - 1)%nat in
    let r := byte_at s start in
    if r <? RuneSelf then (r, 1%nat)
    else
      let lim := Z.max 0 (Z.of_nat end_ - Z.of_nat UTFMax) in
      let start := lookback UTFMax s (Z.of_nat start - 1) lim in
      let start := Z.to_nat (Z.max 0 start) in
      let '(r, size) := DecodeRuneInString (slice_to (end_ - start) (slice_from start s)) in
      if (start + size =? end_)%nat then (r, size) else (RuneError, 1%nat).

End utf8.

(** ** Package [unicode] *)
Module unicode.

(** [unicode.IsSpace]: the Latin-1 white space, and the rest of the
    [White_Space] property. *)
Definition IsSpace (r : N) : bool :=
  if r <=? 0xFF then
    (r =? 0x09) || (r =? 0x0A) || (r =? 0x0B) || (r =? 0x0C) || (r =? 0x0D)
    || (r =? 0x20) || (r =? 0x85) || (r =? 0xA0)
  else
    (r =? 0x1680) || ((0x2000 <=? r) && (r <=? 0x200A))
    || (r =? 0x2028) || (r =? 0x2029) || (r =? 0x202F) || (r =? 0x205F)
    || (r =? 0x3000).

End unicode.


(** ** Package [strings] *)
Module strings.

(** [strings.HasPrefix(s, prefix)] *)
Definition HasPrefix (s prefix : string) : bool := String.prefix prefix s.

(** [strings.Index(s, substr)]: the offset of the first occurrence of
    [substr] in [s]; [None] is Go's [-1]. *)
Fixpoint Index (s substr : string) : option nat :=
  if HasPrefix s substr then Some 0%nat
  else match s with
       | EmptyString => None
       | String _ s' => S <$> Index s' substr
       end.

(** [strings.Contains(s, substr)] is [Index(s, substr) >= 0]. *)
Definition Contains (s substr : string) : bool :=
  match Index s substr with Some _ => true | None => false end.

(** [strings.Count(s, substr)] for a non-empty [substr]: the number of
    non-overlapping occurrences.  Each round of Go's loop cuts at least one
    byte off [s], so [String.length s] rounds are enough. *)
Fixpoint Count_loop (fuel : nat) (s substr : string) : nat :=
  match fuel with
  | O => 0%nat
  | S fuel' =>
    match Index s substr with
    | None => 0%nat
    | Some i => S (Count_loop fuel' (slice_from (i + String.length substr) s) substr)
    end
  end.

Definition Count (s substr : string) : nat := Count_loop (String.length s) s substr.

(** The loop of [strings.genSplit] with [sepSave = 0]: at most [n] cuts,
    then the rest of [s] as the last element. *)
Fixpoint genSplit_loop (s sep : string) (n : nat) : list string :=
  match n with
  | O => [s]
  | S n' =>
    match Index s sep with
    | None => [s]
    | Some m => slice_to m s :: genSplit_loop (slice_from (m + String.length sep) s) sep n'
    end
  end.

(** [strings.genSplit(s, sep, 0, n)] for [n > 0] and a non-empty [sep] (the
    separators of [main.go] are the literals ["\r\n\r\n"], ["\r\n"], [","]
    and [":"]): [n] is capped at [len(s)+1] and the slice has at most [n]
    elements. *)
Definition genSplit (s sep : string) (n : nat) : list string :=
  genSplit_loop s sep (Nat.min n (String.length s + 1) - 1).

(** [strings.SplitN(s, sep, n)] for [n > 0]. *)
Definition SplitN (s sep : string) (n : nat) : list string := genSplit s sep n.

(** [strings.Split(s, sep)]: [genSplit] with [n = Count(s, sep) + 1]. *)
Definition Split (s sep : string) : list string := genSplit s sep (Count s sep + 1).

(** [strings.Join(elems, sep)] *)
Fixpoint Join (elems : list string) (sep : string) : string :=
  match elems with
  | [] => ""
  | [e] => e
  | e :: rest => e +:+ sep +:+ Join rest sep
  end.

(** [indexFunc(s, f, truth)]: [for i, r := range s] decodes one rune at a
    time; [rest] is [s[i:]]. *)
Fixpoint indexFunc_from (fuel : nat) (rest : string) (i : nat)
    (f : N -> bool) (truth : bool) : option nat :=
  match fuel with
  | O => None
  | S fuel' =>
    match rest with
    | EmptyString => None
    | _ =>
      let '(r, size) := utf8.DecodeRuneInString rest in
      if Bool.eqb (f r) truth then Some i
      else indexFunc_from fuel' (slice_from size rest) (i + size) f truth
    end
  end.

Definition indexFunc (s : string) (f : N -> bool) (truth : bool) : option nat :=
  indexFunc_from (String.length s) s 0 f truth.

(** [lastIndexFunc(s, f, truth)]:
    [for i := len(s); i > 0; { r, size := DecodeLastRuneInString(s[0:i]); i -= size; ... }] *)
Fixpoint lastIndexFunc_from (fuel : nat) (s : string) (i : nat)
    (f : N -> bool) (truth : bool) : option nat :=
  match fuel with
  | O => None
  | S fuel' =>
    if (i =? 0)%nat then None
    else
      let '(r, size) := utf8.DecodeLastRuneInString (slice_to i s) in
      let i := (i - size)%nat in
      if Bool.eqb (f r) truth then Some i
      else lastIndexFunc_from fuel' s i f truth
  end.

Definition lastIndexFunc (s : string) (f : N -> bool) (truth : bool) : option nat :=
  lastIndexFunc_from (String.length s) s (String.length s) f truth.

(** [strings.TrimLeftFunc] *)
Definition TrimLeftFunc (s : string) (f : N -> bool) : string :=
  match indexFunc s f false with
  | None => ""
  | Some i => slice_from i s
  end.

(** [strings.TrimRightFunc] *)
Definition TrimRightFunc (s : string) (f : N -> bool) : string :=
  match lastIndexFunc s f false with
  | Some i =>
    if utf8.RuneSelf <=? byte_at s i
    then slice_to (i + snd (utf8.DecodeRuneInString (slice_from i s))) s
    else slice_to (i + 1) s
  | None => slice_to 0 s
  end.

(** [strings.TrimSpace(s)]: [s] without its leading and trailing white
    space, as defined by Unicode.  Go runs over ASCII white space first and
    falls back to [TrimFunc(.., unicode.IsSpace)] at the first byte that is
    not ASCII; the slice is the one [TrimFunc] gives on the whole string. *)
Definition TrimSpace (s : string) : string :=
  TrimRightFunc (TrimLeftFunc s unicode.IsSpace) unicode.IsSpace.

(** Lower case of one byte of an ASCII string: ['A'..'Z'] plus ['a' - 'A']. *)
Definition lower_byte (c : ascii) : ascii :=
  let b := byte_val c in
  if (0x41 <=? b) && (b <=? 0x5A) then ascii_of_N (b + 0x20) else c.

(** [strings.ToLower(s)] on the bytes of [s].  On a string with bytes from
    0x80 on Go maps every rune through [unicode.ToLower]; those runes are
    kept here as they are.  No rune outside ASCII has a lower case among
    [h], [t], [m], [l], and runes outside ASCII are encoded with bytes from
    0x80 on, so [Contains(ToLower(v), "html")], the one use in [Data], has
    the same value. *)
Fixpoint ToLower (s : string) : string :=
  match s with
  | EmptyString => EmptyString
  | String c s' => String (lower_byte c) (ToLower s')
  end.

End strings.

Import strings.
Local Open Scope nat_scope.

(** ** The Graph SDK values built by [Data] (packages [models] and [users]) *)
Module models.

Inductive BodyType : Type := TEXT_BODYTYPE | HTML_BODYTYPE.

Record EmailAddress : Type := { address : string }.
Record Recipient : Type := { emailAddress : EmailAddress }.
Record ItemBody : Type := { content : string; contentType : BodyType }.
Record FileAttachment : Type := { name : string; contentBytes : string }.

Record Message : Type := {
  subject : string;
  body : ItemBody;
  toRecipients : list Recipient;
  attachments : list FileAttachment
}.

End models.

Module users.

Record ItemSendMailPostRequestBody : Type := {
  message : models.Message;
  saveToSentItems : bool
}.

End users.

(** ** What [Data] calls outside the program *)

(** A Go [error] is kept as the text [%v] prints. *)
Definition error : Type := string.

(** The variable of a [for ... range] loop: one per loop before Go 1.22, one
    per iteration from Go 1.22 on (chosen by the [go] line of [go.mod], which
    is not among the sources).  [Data] stores [&addr] in every recipient. *)
Inductive LoopVar : Type := PerLoop | PerIteration.

Record Env : Type := {
  (** [os.ReadFile(path)]: the bytes of the file, or the error *)
  ReadFile : string -> string + error;
  (** [graphClient.Users().ByUserId(id).SendMail().Post(ctx, body, nil)]
      under the 30 second deadline of [ctx]: [None] is a [nil] error *)
  Post : string -> users.ItemSendMailPostRequestBody -> option error;
  loopvar : LoopVar
}.

(** An [io.Reader] as [io.ReadAll] sees it: the bytes read and the error. *)
Record Reader : Type := { r_data : string; r_err : option error }.

Definition ReadAll (r : Reader) : string * option error := (r_data r, r_err r).

(** ** Run-time panics: indexing a slice out of range *)

Inductive Exec (A : Type) : Type :=
| Panic : Exec A
| Done : A -> Exec A.
Arguments Panic {A}.
Arguments Done {A} _.

Definition bind {A B : Type} (m : Exec A) (k : A -> Exec B) : Exec B :=
  match m with
  | Panic => Panic
  | Done a => k a
  end.

Notation "x <-! m ; k" := (bind m (fun x => k))
  (at level 100, m at next level, right associativity).

(** [a[i]] *)
Definition index_slice {A : Type} (a : list A) (i : nat) : Exec A :=
  match a !! i with
  | Some x => Done x
  | None => Panic
  end.

(** [m[key]] on a [map[string]string]: the zero value for a missing key. *)
Definition map_get (m : gmap string string) (key : string) : string :=
  default "" (m !! key).

(** ** [Session] *)

Record Session : Type := {
  from : string;
  to : list string
}.

(** [NewSession]: [&Session{backend: bkd}], the other fields zero. *)
Definition NewSession : Session := {| from := ""; to := [] |}.

Definition AuthPlain (s : Session) (username password : string) : Session * option error :=
  ({| from := username; to := to s |}, None).

Definition Mail (s : Session) (from' : string) : Session * option error :=
  ({| from := from'; to := to s |}, None).

Definition Rcpt (s : Session) (to' : string) : Session * option error :=
  ({| from := from s; to := to s ++ [to'] |}, None).

Definition Reset (s : Session) : Session :=
  {| from := ""; to := [] |}.

Definition Logout (s : Session) : option error := None.

(** ** [parseHeaders] *)

(** The variables of the loop: [headers], [currentHeader] and the content of
    the builder [currentValue]. *)
Record ParseState : Type := {
  headers : gmap string string;
  currentHeader : string;
  currentValue : string
}.

(** One round of [for _, line := range lines]. *)
Definition parseHeaders_line (st : ParseState) (line : string) : ParseState :=
  if decide (line = "") then st
  else if HasPrefix line " " || HasPrefix line TABs then
    {| headers := headers st;
       currentHeader := currentHeader st;
       currentValue := currentValue st +:+ (" " +:+ TrimSpace line) |}
  else
    let st :=
      if decide (currentHeader st ≠ "") then
        {| headers := <[currentHeader st := currentValue st]> (headers st);
           currentHeader := currentHeader st;
           currentValue := "" |}
      else st in
    match SplitN line ":" 2 with
    | [part0; part1] =>
      {| headers := headers st;
         currentHeader := TrimSpace part0;
         currentValue := currentValue st +:+ TrimSpace part1 |}
    | _ => st
    end.

Definition parseHeaders (headerData : string) : gmap string string :=
  let lines := Split headerData CRLF in
  let st := fold_left parseHeaders_line lines
              {| headers := ∅; currentHeader := ""; currentValue := "" |} in
  if decide (currentHeader st ≠ "") then
    <[currentHeader st := currentValue st]> (headers st)
  else headers st.

(** ** [Data] *)

(** What one call of [Data] does: the error it returns ([None] is [nil]),
    the lines it writes to [backend.logger], in order, and its call of
    [Post], if it makes one: the user id given to [ByUserId] and the request
    body. *)
Record DataResult : Type := {
  ret : option error;
  logged : list string;
  posted : option (string * users.ItemSendMailPostRequestBody)
}.

(** "Create recipients": every recipient holds [&addr]. *)
Definition make_recipient (addr : string) : models.Recipient :=
  {| models.emailAddress := {| models.address := addr |} |}.

Definition toRecipients_of (lv : LoopVar) (to_ : list string) : list models.Recipient :=
  match lv with
  | PerIteration => make_recipient <$> to_
  | PerLoop => (fun _ => make_recipient (List.last to_ "")) <$> to_
  end.

(** "Create the message body": the content type. *)
Definition contentType_of (headers : gmap string string) : models.BodyType :=
  if Contains (ToLower (map_get headers "Content-Type")) "html"
  then models.HTML_BODYTYPE
  else models.TEXT_BODYTYPE.

(** [Printf("Error reading attachment %s: %v\n", path, err)] *)
Definition attachment_warning (path : string) (err : error) : string :=
  "Error reading attachment " +:+ path +:+ ": " +:+ err +:+ NL.

(** One round of [for _, path := range attachmentPaths]: the attachments and
    the log lines so far. *)
Definition attach_path (env : Env)
    (acc : list models.FileAttachment * list string) (path : string)
    : list models.FileAttachment * list string :=
  match ReadFile env (TrimSpace path) with
  | inr err => (acc.1, acc.2 ++ [attachment_warning path err])
  | inl data =>
    let name := TrimSpace path in
    (acc.1 ++ [{| models.name := name; models.contentBytes := data |}], acc.2)
  end.

(** "Handle attachments" *)
Definition load_attachments (env : Env) (headers : gmap string string)
    : list models.FileAttachment * list string :=
  if 0 <? String.length (map_get headers "Attachments") then
    let attachmentPaths := Split (map_get headers "Attachments") "," in
    fold_left (attach_path env) attachmentPaths ([], [])
  else ([], []).

(** The two log lines of the send. *)
Definition log_failure (from_ : string) (err : error) : string :=
  "from=<" +:+ from_ +:+ ">, host=graph.microsoft.com, msgid=NA, errormsg="
  +:+ String DQUOTE err +:+ String DQUOTE NL.

Definition log_success (from_ recipients : string) : string :=
  "from=<" +:+ from_
  +:+ ">, host=graph.microsoft.com, msgid=NA, mailer=GoGraphSmtp, tls=on, recipients="
  +:+ recipients +:+ NL.

Definition Data (env : Env) (s : Session) (r : Reader) : Exec DataResult :=
  let '(data, err) := ReadAll r in
  match err with
  | Some e => Done {| ret := Some e; logged := []; posted := None |}
  | None =>
    let message := data in
    let parts := Split message CRLFCRLF in
    part0 <-! index_slice parts 0;
    let headers := parseHeaders part0 in
    body <-! (if 1 <? length parts then index_slice parts 1 else Done "");
    let toRecipients := toRecipients_of (loopvar env) (to s) in
    let messageBody :=
      {| models.content := body; models.contentType := contentType_of headers |} in
    let '(attachments, warnings) := load_attachments env headers in
    let msg :=
      {| models.subject := map_get headers "Subject";
         models.body := messageBody;
         models.toRecipients := toRecipients;
         models.attachments := attachments |} in
    let requestBody :=
      {| users.message := msg; users.saveToSentItems := true |} in
    match Post env (from s) requestBody with
    | Some err =>
      Done {| ret := Some ("failed to send email: " +:+ err);
              logged := warnings ++ [log_failure (from s) err];
              posted := Some (from s, requestBody) |}
    | None =>
      let recipients := Join (to s) "," in
      Done {| ret := None;
              logged := warnings ++ [log_success (from s) recipients];
              posted := Some (from s, requestBody) |}
    end
  end.

(** ** The protocol commands as the transport hands them to a session *)

Inductive Command : Type :=
| AUTH (username password : string)
| MAIL (sender : string)
| RCPT (recipient : string)
| RSET.

Definition exec (s : Session) (c : Command) : Session :=
  match c with
  | AUTH username password => (AuthPlain s username password).1
  | MAIL sender => (Mail s sender).1
  | RCPT recipient => (Rcpt s recipient).1
  | RSET => Reset s
  end.

Definition run (s : Session) (cmds : list Command) : Session :=
  fold_left exec cmds s.

(** A reader that delivers [data] with no error. *)
Definition submitted (data : string) : Reader := {| r_data := data; r_err := None |}.

(** The user id [Data] hands to [ByUserId], if it gets that far. *)
Definition sendAs (o : Exec DataResult) : option string :=
  match o with
  | Done res => fst <$> posted res
  | Panic => None
  end.

(** The request body [Data] hands to [Post], if it gets that far. *)
Definition request (o : Exec DataResult) : option users.ItemSendMailPostRequestBody :=
  match o with
  | Done res => snd <$> posted res
  | Panic => None
  end.

(** The body text and the content type of the request body [Data] posts. *)
Definition posted_content (o : Exec DataResult) : option string :=
  (fun req => models.content (models.body (users.message req))) <$> request o.

Definition posted_contentType (o : Exec DataResult) : option models.BodyType :=
  (fun req => models.contentType (models.body (users.message req))) <$> request o.

(** ** The words of the specification, to compare the code with *)

(** The principal of the last authentication step of a command sequence. *)
Fixpoint authenticated_principal (cmds : list Command) : option string :=
  match cmds with
  | [] => None
  | c :: rest =>
    match authenticated_principal rest with
    | Some u => Some u
    | None => match c with AUTH u _ => Some u | _ => None end
    end
  end.

(** What a command stores in the field [from], if it stores anything. *)
Definition from_written (c : Command) : option string :=
  match c with
  | AUTH username _ => Some username
  | MAIL sender => Some sender
  | RSET => Some ""
  | RCPT _ => None
  end.

(** The last value a command sequence stores in [from]. *)
Fixpoint last_from_written (cmds : list Command) : option string :=
  match cmds with
  | [] => None
  | c :: rest =>
    match last_from_written rest with
    | Some v => Some v
    | None => from_written c
    end
  end.

(** The header block and the body as the specification cuts them: the text
    before the first blank-line separator and everything after it. *)
Definition before_first_separator (message : string) : string :=
  match Index message CRLFCRLF with
  | Some i => slice_to i message
  | None => message
  end.

Definition after_first_separator (message : string) : string :=
  match Index message CRLFCRLF with
  | Some i => slice_from (i + String.length CRLFCRLF) message
  | None => ""
  end.

(** The header block and the body as [Data] cuts them: [parts[0]], and
    [parts[1]] when there is one. *)
Definition header_block (message : string) : string :=
  default "" (Split message CRLFCRLF !! 0).

Definition body_segment (message : string) : string :=
  default "" (Split message CRLFCRLF !! 1).

(** The request body in terms of the header block and the body segment;
    [Data_submitted] below shows that it is the one [Data] posts. *)
Definition translated (env : Env) (s : Session) (message : string)
    : users.ItemSendMailPostRequestBody :=
  let headers := parseHeaders (header_block message) in
  {| users.message :=
       {| models.subject := map_get headers "Subject";
          models.body :=
            {| models.content := body_segment message;
               models.contentType := contentType_of headers |};
          models.toRecipients := toRecipients_of (loopvar env) (to s);
          models.attachments := (load_attachments env headers).1 |};
     users.saveToSentItems := true |}.

(** A continuation line starts with a space or a tab. *)
Definition is_continuation (line : string) : bool :=
  match line with
  | String c _ => bool_decide (c = " "%char) || bool_decide (c = TAB)
  | EmptyString => false
  end.

(** [Name: value]: the text before the first colon and the text after it. *)
Fixpoint name_value (line : string) : option (string * string) :=
  match line with
  | EmptyString => None
  | String c rest =>
    if bool_decide (c = ":"%char) then Some ("", rest)
    else (fun nv => (String c nv.1, nv.2)) <$> name_value rest
  end.

(** A well-formed header line: not a continuation, with a colon and a name
    before it. *)
Definition well_formed_header (line : string) : bool :=
  negb (is_continuation line) &&
  match name_value line with
  | Some (n, _) => bool_decide (TrimSpace n ≠ "")
  | None => false
  end.

Definition line_ok (line : string) : bool :=
  bool_decide (line = "") || is_continuation line || well_formed_header line.

(** The first line that is not empty is a header line: no continuation of
    nothing. *)
Fixpoint starts_with_header (lines : list string) : bool :=
  match lines with
  | [] => true
  | line :: rest =>
    if bool_decide (line = "") then starts_with_header rest
    else negb (is_continuation line)
  end.

(** A header block in which every header line is well-formed. *)
Definition well_formed_block (headerData : string) : bool :=
  let lines := Split headerData CRLF in
  forallb line_ok lines && starts_with_header lines.

(** The folded continuation lines that follow a header line directly, each
    trimmed and joined by a single space. *)
Fixpoint continuation_text (lines : list string) : string :=
  match lines with
  | [] => ""
  | line :: rest =>
    if bool_decide (line = "") then continuation_text rest
    else if is_continuation line
         then " " +:+ TrimSpace line +:+ continuation_text rest
         else ""
  end.

(** The headers of a block, in order: the name and the unfolded value of
    every header line. *)
Fixpoint unfolded_headers (lines : list string) : list (string * string) :=
  match lines with
  | [] => []
  | line :: rest =>
    if bool_decide (line = "") || is_continuation line then unfolded_headers rest
    else match name_value line with
         | Some (n, v) =>
           (TrimSpace n, TrimSpace v +:+ continuation_text rest) :: unfolded_headers rest
         | None => unfolded_headers rest
         end
  end.

(** The value of the last occurrence of a name. *)
Fixpoint last_value (name : string) (hs : list (string * string)) : option string :=
  match hs with
  | [] => None
  | (n, v) :: rest =>
    match last_value name rest with
    | Some v' => Some v'
    | None => if decide (n = name) then Some v else None
    end
  end.

(** What the last round of [parseHeaders] does with the loop state. *)
Definition flush (st : ParseState) : gmap string string :=
  if decide (currentHeader st ≠ "") then
    <[currentHeader st := currentValue st]> (headers st)
  else headers st.

(** Storing one header in the map: [headers[name] = value]. *)
Definition store (m : gmap string string) (kv : string * string) : gmap string string :=
  <[kv.1 := kv.2]> m.

(** What one attachment path contributes: an attachment if the file can be
    read, a warning in the log if it cannot. *)
Definition attachment_of (env : Env) (path : string) : option models.FileAttachment :=
  match ReadFile env (TrimSpace path) with
  | inl data => Some {| models.name := TrimSpace path; models.contentBytes := data |}
  | inr _ => None
  end.

Definition warning_of (env : Env) (path : string) : option string :=
  match ReadFile env (TrimSpace path) with
  | inl _ => None
  | inr err => Some (attachment_warning path err)
  end.

Definition readable (env : Env) (path : string) : bool :=
  match ReadFile env (TrimSpace path) with
  | inl _ => true
  | inr _ => false
  end.

(** A header lookup that ignores letter case, as the protocol convention
    has it: the value of the last header whose name is [name] up to case. *)
Definition lookup_ignoring_case (name : string) (hs : gmap string string) : option string :=
  last_value (ToLower name)
    ((fun kv => (ToLower kv.1, kv.2)) <$> map_to_list hs).

(** The four letters [html] in any letter case. *)
Definition html_any_case (w : string) : Prop :=
  ∃ h t m l : ascii,
    w = String h (String t (String m (String l ""))) ∧
    (h = "h"%char ∨ h = "H"%char) ∧ (t = "t"%char ∨ t = "T"%char) ∧
    (m = "m"%char ∨ m = "M"%char) ∧ (l = "l"%char ∨ l = "L"%char).

Definition contains_html_any_case (v : string) : Prop :=
  ∃ pre w post : string, v = pre +:+ w +:+ post ∧ html_any_case w.

(** An environment for examples: only the files [/etc/motd] and
    [/tmp/report.txt] can be read, and every send succeeds. *)
Definition example_env : Env := {|
  ReadFile := fun path =>
    if decide (path = "/etc/motd") then inl "welcome"
    else if decide (path = "/tmp/report.txt") then inl "report"
    else inr ("open " +:+ path +:+ ": no such file or directory");
  Post := fun _ _ => None;
  loopvar := PerIteration
|}.

(** ** Further views of the session, the parser and the request *)

(** The recipients a command sequence declares after its last RSET, and
    whether it has an RSET at all. *)
Fixpoint recipients_since_reset (cmds : list Command) : bool * list string :=
  match cmds with
  | [] => (false, [])
  | c :: rest =>
    let '(reset_seen, declared) := recipients_since_reset rest in
    if reset_seen then (true, declared)
    else match c with
         | RSET => (true, declared)
         | RCPT recipient => (false, recipient :: declared)
         | _ => (false, declared)
         end
  end.

(** The addresses of a recipient list. *)
Definition addresses (rs : list models.Recipient) : list string :=
  (fun r => models.address (models.emailAddress r)) <$> rs.

(** The recipient list of the request body [Data] posts. *)
Definition posted_recipients (o : Exec DataResult) : option (list models.Recipient) :=
  (fun req => models.toRecipients (users.message req)) <$> request o.

(** The attachments of the request body [Data] posts. *)
Definition posted_attachments (o : Exec DataResult) : option (list models.FileAttachment) :=
  (fun req => models.attachments (users.message req)) <$> request o.

(** The trimmed names of the lines that can start a header: not empty, not
    a continuation, with a colon. *)
Fixpoint candidate_names (lines : list string) : list string :=
  match lines with
  | [] => []
  | line :: rest =>
    if bool_decide (line = "") || is_continuation line then candidate_names rest
    else match name_value line with
         | Some (n, _) => TrimSpace n :: candidate_names rest
         | None => candidate_names rest
         end
  end.

(** A line that is neither empty nor a continuation and has no colon. *)
Definition colonless (line : string) : bool :=
  negb (bool_decide (line = "")) && negb (is_continuation line) &&
  match name_value line with Some _ => false | None => true end.

(** Text put in front of the value of the first header of a list. *)
Definition prepend_first (text : string) (hs : list (string * string))
    : list (string * string) :=
  match hs with
  | [] => []
  | (n, v) :: rest => (n, text +:+ v) :: rest
  end.

(** What a session method answers to a command: the error it returns
    ([None] is [nil]); [Reset] returns nothing. *)
Definition reply (s : Session) (c : Command) : option error :=
  match c with
  | AUTH username password => (AuthPlain s username password).2
  | MAIL sender => (Mail s sender).2
  | RCPT recipient => (Rcpt s recipient).2
  | RSET => None
  end.

(** The answers to a command sequence, each command run on the session the
    commands before it left. *)
Fixpoint replies (s : Session) (cmds : list Command) : list (option error) :=
  match cmds with
  | [] => []
  | c :: rest => reply s c :: replies (exec s c) rest
  end.

(** Addresses written one after the other with a comma between two of
    them, read from left to right. *)
Definition comma_joined (l : list string) : string :=
  match l with
  | [] => ""
  | first_one :: others =>
    fold_left (fun written next => written +:+ "," +:+ next) others first_one
  end.

(** The same environment with another file system. *)
Definition with_files (env : Env) (files : string -> string + error) : Env :=
  {| ReadFile := files; Post := Post env; loopvar := loopvar env |}.

(** An environment in which no file can be read and every send fails. *)
Definition failing_env : Env := {|
  ReadFile := fun path => inr ("open " +:+ path +:+ ": permission denied");
  Post := fun _ _ => Some "context deadline exceeded";
  loopvar := PerLoop
|}.

(** * Properties *)

(** ** Strings *)

Lemma append_nil_l (s : string) : "" +:+ s = s.
Proof. reflexivity. Qed.

Lemma append_cons (c : ascii) (s t : string) : String c s +:+ t = String c (s +:+ t).
Proof. reflexivity. Qed.

Lemma append_nil_r (s : string) : s +:+ "" = s.
Proof. induction s as [|c s IH]; [reflexivity|]. by rewrite append_cons, IH. Qed.

Lemma append_assoc (s t u : string) : (s +:+ t) +:+ u = s +:+ (t +:+ u).
Proof. induction s as [|c s IH]; [reflexivity|]. by rewrite !append_cons, IH. Qed.

Lemma length_append (s t : string) :
  String.length (s +:+ t) = String.length s + String.length t.
Proof. induction s as [|c s IH]; [reflexivity|]. rewrite append_cons. simpl. by rewrite IH. Qed.

Lemma prefix_append (p s : string) : String.prefix p (p +:+ s) = true.
Proof.
  induction p as [|c p IH]; [by destruct s|].
  rewrite append_cons. simpl. by destruct (ascii_dec c c).
Qed.

Lemma prefix_split (p s : string) :
  String.prefix p s = true → s = p +:+ slice_from (String.length p) s.
Proof.
  revert s. induction p as [|c p IH]; intros s H; [reflexivity|].
  destruct s as [|d s]; [discriminate|]. simpl in H.
  destruct (ascii_dec c d) as [->|]; [|discriminate].
  rewrite append_cons. simpl. f_equal. by apply IH.
Qed.

Lemma slice_to_from (n : nat) (s : string) : slice_to n s +:+ slice_from n s = s.
Proof.
  revert s. induction n as [|n IH]; intros [|c s]; try reflexivity.
  simpl. rewrite append_cons. by rewrite IH.
Qed.

Lemma Index_eq (s sub : string) :
  Index s sub =
  if HasPrefix s sub then Some 0
  else match s with
       | EmptyString => None
       | String _ s' => S <$> Index s' sub
       end.
Proof. by destruct s. Qed.

Lemma Index_Some_split (s sub : string) (i : nat) :
  Index s sub = Some i →
  s = slice_to i s +:+ sub +:+ slice_from (i + String.length sub) s.
Proof.
  revert i. induction s as [|c s IH]; intros i; rewrite Index_eq;
    destruct (HasPrefix _ sub) eqn:Hp; try discriminate.
  - intros [= <-]. by apply prefix_split in Hp.
  - intros [= <-]. by apply prefix_split in Hp.
  - destruct (Index s sub) as [j|] eqn:Hj; [|discriminate].
    intros [= <-]. simpl. rewrite append_cons. f_equal. by apply IH.
Qed.

Lemma Index_append (pre sub post : string) :
  is_Some (Index (pre +:+ sub +:+ post) sub).
Proof.
  induction pre as [|c pre IH]; rewrite Index_eq.
  - rewrite append_nil_l. unfold HasPrefix. rewrite prefix_append. eauto.
  - rewrite append_cons. destruct (HasPrefix _ _); [eauto|].
    destruct IH as [j ->]. eauto.
Qed.

Lemma Contains_spec (s sub : string) :
  Contains s sub = true ↔ ∃ pre post, s = pre +:+ sub +:+ post.
Proof.
  unfold Contains. split.
  - destruct (Index s sub) as [i|] eqn:Hi; [|discriminate].
    intros _. apply Index_Some_split in Hi. eauto.
  - intros (pre & post & ->). by destruct (Index_append pre sub post) as [j ->].
Qed.

Lemma genSplit_loop_cons (s sep : string) (n : nat) :
  ∃ part0 rest, genSplit_loop s sep n = part0 :: rest.
Proof. destruct n; simpl; [eauto|]. destruct (Index s sep); eauto. Qed.

Lemma Split_cons (s sep : string) : ∃ part0 rest, Split s sep = part0 :: rest.
Proof. apply genSplit_loop_cons. Qed.

(** ** [Data] never panics, and what it posts *)

Lemma index_slice_0 (message : string) :
  index_slice (Split message CRLFCRLF) 0 = Done (header_block message).
Proof.
  unfold index_slice, header_block.
  by destruct (Split_cons message CRLFCRLF) as (p0 & rest & ->).
Qed.

Lemma index_slice_1 (message : string) :
  (if 1 <? length (Split message CRLFCRLF)
   then index_slice (Split message CRLFCRLF) 1 else Done "")
  = Done (body_segment message).
Proof.
  unfold index_slice, body_segment.
  destruct (Split message CRLFCRLF) as [|p0 [|p1 rest]]; reflexivity.
Qed.

Lemma Data_submitted (env : Env) (s : Session) (data : string) :
  ∃ res line,
    Data env s (submitted data) = Done res ∧
    posted res = Some (from s, translated env s data) ∧
    logged res = (load_attachments env (parseHeaders (header_block data))).2 ++ [line].
Proof.
  unfold Data, submitted, ReadAll, translated. simpl r_data. simpl r_err. cbv iota beta.
  rewrite index_slice_0. unfold bind at 1.
  rewrite index_slice_1. unfold bind.
  destruct (load_attachments env (parseHeaders (header_block data))) as [atts warnings].
  simpl. destruct (Post env _ _); eauto.
Qed.

Lemma sendAs_submitted (env : Env) (s : Session) (data : string) :
  sendAs (Data env s (submitted data)) = Some (from s).
Proof.
  destruct (Data_submitted env s data) as (res & line & -> & Hp & _).
  simpl. by rewrite Hp.
Qed.

Lemma request_submitted (env : Env) (s : Session) (data : string) :
  request (Data env s (submitted data)) = Some (translated env s data).
Proof.
  destruct (Data_submitted env s data) as (res & line & -> & Hp & _).
  simpl. by rewrite Hp.
Qed.

Lemma Data_submitted_outcome (env : Env) (s : Session) (data : string) :
  Data env s (submitted data) =
  Done {| ret := (fun e => "failed to send email: " +:+ e)
                   <$> Post env (from s) (translated env s data);
          logged := (load_attachments env (parseHeaders (header_block data))).2
                    ++ [match Post env (from s) (translated env s data) with
                        | Some e => log_failure (from s) e
                        | None => log_success (from s) (Join (to s) ",")
                        end];
          posted := Some (from s, translated env s data) |}.
Proof.
  unfold Data, submitted, ReadAll, translated. simpl r_data. simpl r_err. cbv iota beta.
  rewrite index_slice_0. unfold bind at 1.
  rewrite index_slice_1. unfold bind.
  destruct (load_attachments env (parseHeaders (header_block data))) as [atts warnings].
  simpl. by destruct (Post env _ _).
Qed.

(** ** The text of the log lines *)

Lemma attachment_warning_text (path : string) (err : error) :
  attachment_warning path err
  = "Error reading attachment " +:+ path +:+ ": " +:+ err +:+ String "010"%char "".
Proof. reflexivity. Qed.

Lemma log_failure_text (sender : string) (err : error) :
  log_failure sender err
  = "from=<" +:+ sender +:+ ">, host=graph.microsoft.com, msgid=NA, errormsg="
    +:+ String "034"%char (err +:+ String "034"%char (String "010"%char "")).
Proof. reflexivity. Qed.

Lemma fold_comma_append (others : list string) (written first_one : string) :
  fold_left (fun w next => w +:+ "," +:+ next) others (written +:+ first_one)
  = written +:+ fold_left (fun w next => w +:+ "," +:+ next) others first_one.
Proof.
  revert first_one. induction others as [|u rest IH]; intros first_one; [reflexivity|].
  simpl fold_left. rewrite <- IH. by rewrite append_assoc.
Qed.

Lemma Join_comma_joined (l : list string) : Join l "," = comma_joined l.
Proof.
  induction l as [|t [|u rest] IH]; [reflexivity..|].
  change (Join (t :: u :: rest) ",") with (t +:+ "," +:+ Join (u :: rest) ",").
  rewrite IH. unfold comma_joined. simpl fold_left.
  rewrite <- (append_assoc t "," u), fold_comma_append.
  by rewrite append_assoc.
Qed.

Lemma log_success_text (sender : string) (recipients : list string) :
  log_success sender (Join recipients ",")
  = "from=<" +:+ sender
    +:+ ">, host=graph.microsoft.com, msgid=NA, mailer=GoGraphSmtp, tls=on, recipients="
    +:+ comma_joined recipients +:+ String "010"%char "".
Proof. by rewrite Join_comma_joined. Qed.

(** ** The session state across commands *)

Lemma from_run (s0 : Session) (cmds : list Command) :
  from (run s0 cmds) = default (from s0) (last_from_written cmds).
Proof.
  revert s0. induction cmds as [|c rest IH]; intros s0; [reflexivity|].
  unfold run in *. simpl fold_left. rewrite IH. simpl last_from_written.
  destruct (last_from_written rest); [reflexivity|]. by destruct c.
Qed.

Lemma last_from_written_rcpt (recipients : list string) :
  last_from_written (RCPT <$> recipients) = None.
Proof.
  induction recipients as [|t rest IH]; [reflexivity|].
  rewrite fmap_cons. simpl last_from_written. by rewrite IH.
Qed.

(** C1, as the code has it: the user id of the send is the field [from] of the
    session when DATA arrives, that is, the value the last AUTH, MAIL or RSET
    before it stored there (the authenticated principal only if no MAIL or
    RSET came after the authentication). *)
Theorem send_identity_is_last_from_written
    (env : Env) (s0 : Session) (cmds : list Command) (data : string) :
  sendAs (Data env (run s0 cmds) (submitted data))
  = Some (default (from s0) (last_from_written cmds)).
Proof. by rewrite sendAs_submitted, from_run. Qed.

(** C1 fails as stated: after authenticating as alice, a MAIL command with
    another sender makes that sender the identity of the send. *)
Lemma mail_sender_replaces_principal :
  let cmds := [AUTH "alice@example.com" "secret";
               MAIL "mallory@example.com";
               RCPT "bob@example.com"] in
  let sent := sendAs (Data example_env (run NewSession cmds)
                        (submitted ("Subject: Hi" +:+ CRLFCRLF +:+ "Hello"))) in
  authenticated_principal cmds = Some "alice@example.com" ∧
  sent = Some "mallory@example.com" ∧
  sent ≠ authenticated_principal cmds.
Proof.
  cbv zeta. rewrite sendAs_submitted, from_run. split_and!; [reflexivity..|discriminate].
Qed.

(** C3, as the code has it: [Reset] empties the field [from] and the
    recipient list; the authenticated identity lives in that field, so it is
    emptied too, and a message submitted after the reset (with any
    recipients declared in between) is sent as the empty user id. *)
Theorem Reset_clears_from_and_to
    (env : Env) (s : Session) (recipients : list string) (data : string) :
  from (Reset s) = "" ∧ to (Reset s) = [] ∧
  sendAs (Data env (run (Reset s) (RCPT <$> recipients)) (submitted data)) = Some "".
Proof.
  split_and!; [reflexivity..|].
  by rewrite sendAs_submitted, from_run, last_from_written_rcpt.
Qed.

(** C3 fails as stated: after authenticating as alice and a reset, the next
    message is sent as the empty user id, not as alice. *)
Lemma reset_forgets_principal :
  let cmds := [AUTH "alice@example.com" "secret"; RSET; RCPT "bob@example.com"] in
  let sent := sendAs (Data example_env (run NewSession cmds)
                        (submitted ("Subject: Hi" +:+ CRLFCRLF +:+ "Hello"))) in
  authenticated_principal cmds = Some "alice@example.com" ∧
  sent = Some "" ∧
  sent ≠ authenticated_principal cmds.
Proof.
  cbv zeta. rewrite sendAs_submitted, from_run. split_and!; [reflexivity..|discriminate].
Qed.

(** C10: [AuthPlain] accepts every username and password: it returns no
    error and stores the username in the field [from], whatever the
    password, and leaves the recipients as they are. *)
Theorem AuthPlain_accepts_all (s : Session) (username password : string) :
  (AuthPlain s username password).2 = None ∧
  from (AuthPlain s username password).1 = username ∧
  to (AuthPlain s username password).1 = to s.
Proof. done. Qed.

(** C7: with no recipient declared [Data] does not panic, whatever the
    reader delivers; when the message was read, the request it posts has an
    empty recipient list. *)
Theorem Data_no_recipients (env : Env) (sender : string) (r : Reader) :
  ∃ res, Data env {| from := sender; to := [] |} r = Done res ∧
    match r_err r with
    | Some e => ret res = Some e ∧ posted res = None
    | None => ∃ body, posted res = Some (sender, body) ∧
                      models.toRecipients (users.message body) = []
    end.
Proof.
  destruct r as [data [e|]].
  - eexists. split; [reflexivity|]. done.
  - destruct (Data_submitted env {| from := sender; to := [] |} data)
      as (res & line & HD & Hp & _).
    exists res. split; [exact HD|]. simpl. eexists. split; [exact Hp|].
    simpl. by destruct (loopvar env).
Qed.

(** C9: the end-to-end scenario.  Authenticated as alice, with sender alice
    and recipient bob, the message [Subject: Hi], [Content-Type: text/plain],
    body [Hello Bob] is posted as user alice with subject [Hi], the
    plain-text body [Hello Bob], the one recipient bob, no attachment and
    save-to-sent-items set. *)
Theorem end_to_end_scenario (env : Env) (password : string) :
  let s := run NewSession [AUTH "alice@example.com" password;
                           MAIL "alice@example.com";
                           RCPT "bob@example.com"] in
  let raw := "Subject: Hi" +:+ CRLF +:+ "Content-Type: text/plain"
             +:+ CRLFCRLF +:+ "Hello Bob" in
  ∃ res, Data env s (submitted raw) = Done res ∧
    posted res = Some ("alice@example.com",
      {| users.message :=
           {| models.subject := "Hi";
              models.body := {| models.content := "Hello Bob";
                                models.contentType := models.TEXT_BODYTYPE |};
              models.toRecipients :=
                [ {| models.emailAddress := {| models.address := "bob@example.com" |} |} ];
              models.attachments := [] |};
         users.saveToSentItems := true |}).
Proof.
  intros s raw. destruct (Data_submitted env s raw) as (res & line & HD & Hp & _).
  exists res. split; [exact HD|]. rewrite Hp. f_equal. f_equal.
  unfold translated. destruct (loopvar env); vm_compute; reflexivity.
Qed.

(** ** [parseHeaders] on well-formed blocks *)

Lemma prefix_nil (s : string) : String.prefix "" s = true.
Proof. by destruct s. Qed.

Lemma HasPrefix_char (line : string) (c : ascii) :
  HasPrefix line (String c "") =
  match line with
  | String d _ => bool_decide (d = c)
  | EmptyString => false
  end.
Proof.
  unfold HasPrefix. destruct line as [|d rest]; [reflexivity|]. simpl.
  destruct (ascii_dec c d) as [->|Hne].
  - by rewrite prefix_nil, bool_decide_eq_true_2.
  - by rewrite bool_decide_eq_false_2.
Qed.

Lemma is_continuation_HasPrefix (line : string) :
  HasPrefix line " " || HasPrefix line TABs = is_continuation line.
Proof. unfold TABs. rewrite !HasPrefix_char. by destruct line. Qed.

Lemma Index_colon (line : string) :
  match Index line ":" with
  | Some m => name_value line = Some (slice_to m line, slice_from (m + 1) line)
  | None => name_value line = None
  end.
Proof.
  induction line as [|c rest IH]; [reflexivity|].
  rewrite Index_eq, HasPrefix_char. simpl name_value.
  destruct (bool_decide (c = ":"%char)); [reflexivity|].
  destruct (Index rest ":") as [m|]; simpl; by rewrite IH.
Qed.

Lemma SplitN_colon (line : string) :
  line ≠ "" →
  SplitN line ":" 2 =
  match name_value line with
  | Some (n, v) => [n; v]
  | None => [line]
  end.
Proof.
  intros Hne. unfold SplitN, genSplit.
  replace (2 `min` (String.length line + 1) - 1) with 1
    by (destruct line; [done|simpl String.length; lia]).
  simpl. pose proof (Index_colon line) as H.
  destruct (Index line ":") as [m|]; by rewrite H.
Qed.

Lemma parseHeaders_line_empty (st : ParseState) : parseHeaders_line st "" = st.
Proof. reflexivity. Qed.

Lemma parseHeaders_line_continuation (st : ParseState) (line : string) :
  is_continuation line = true →
  parseHeaders_line st line =
  {| headers := headers st;
     currentHeader := currentHeader st;
     currentValue := currentValue st +:+ (" " +:+ TrimSpace line) |}.
Proof.
  intros Hc. unfold parseHeaders_line.
  rewrite decide_False by (by destruct line).
  by rewrite is_continuation_HasPrefix, Hc.
Qed.

Lemma parseHeaders_line_header (st : ParseState) (line n v : string) :
  line ≠ "" → is_continuation line = false → name_value line = Some (n, v) →
  parseHeaders_line st line =
  if decide (currentHeader st ≠ "") then
    {| headers := <[currentHeader st := currentValue st]> (headers st);
       currentHeader := TrimSpace n;
       currentValue := TrimSpace v |}
  else
    {| headers := headers st;
       currentHeader := TrimSpace n;
       currentValue := currentValue st +:+ TrimSpace v |}.
Proof.
  intros Hne Hc Hnv. unfold parseHeaders_line.
  rewrite decide_False by done.
  rewrite is_continuation_HasPrefix, Hc, SplitN_colon, Hnv by done.
  by destruct (decide (currentHeader st ≠ "")).
Qed.

Lemma line_ok_cases (line : string) :
  line_ok line = true →
  line = "" ∨ (line ≠ "" ∧ is_continuation line = true) ∨
  (line ≠ "" ∧ is_continuation line = false ∧
   ∃ n v, name_value line = Some (n, v) ∧ TrimSpace n ≠ "").
Proof.
  unfold line_ok, well_formed_header. intros H.
  destruct (decide (line = "")) as [->|Hne]; [by left|right].
  destruct (is_continuation line) eqn:Hc; [by left|right].
  rewrite bool_decide_eq_false_2 in H by done. simpl in H.
  destruct (name_value line) as [[n v]|]; [|done].
  apply bool_decide_eq_true_1 in H. eauto 10.
Qed.

(** The loop, run from a state with a pending header, on lines that are all
    well-formed: the pending header gets the continuation lines that follow
    it, then the unfolded headers of the lines are stored in order. *)
Lemma parse_loop_pending (lines : list string) (m : gmap string string) (h v : string) :
  h ≠ "" → forallb line_ok lines = true →
  flush (fold_left parseHeaders_line lines
           {| headers := m; currentHeader := h; currentValue := v |})
  = fold_left store (unfolded_headers lines)
      (<[h := v +:+ continuation_text lines]> m).
Proof.
  revert m h v. induction lines as [|line rest IH]; intros m h v Hh Hok.
  - simpl. unfold flush. simpl. rewrite decide_True by done. by rewrite append_nil_r.
  - simpl in Hok. apply andb_prop in Hok as [Hline Hrest].
    simpl fold_left.
    destruct (line_ok_cases line Hline) as [->|[[Hne Hc]|(Hne & Hc & n & v' & Hnv & Hn)]].
    + rewrite parseHeaders_line_empty. rewrite IH by done. reflexivity.
    + rewrite parseHeaders_line_continuation by done. simpl.
      rewrite IH by done. rewrite bool_decide_eq_false_2 by done.
      rewrite Hc. simpl. by rewrite !append_assoc.
    + rewrite (parseHeaders_line_header _ _ n v') by done. simpl.
      rewrite decide_True by done. rewrite IH by done.
      rewrite bool_decide_eq_false_2 by done. rewrite Hc, Hnv. simpl.
      by rewrite append_nil_r.
Qed.

(** The loop from its initial state, on a well-formed block. *)
Lemma parse_loop_initial (lines : list string) :
  forallb line_ok lines = true → starts_with_header lines = true →
  flush (fold_left parseHeaders_line lines
           {| headers := ∅; currentHeader := ""; currentValue := "" |})
  = fold_left store (unfolded_headers lines) ∅.
Proof.
  induction lines as [|line rest IH]; intros Hok Hstart; [reflexivity|].
  simpl in Hok. apply andb_prop in Hok as [Hline Hrest].
  simpl in Hstart. simpl fold_left.
  destruct (line_ok_cases line Hline) as [->|[[Hne Hc]|(Hne & Hc & n & v' & Hnv & Hn)]].
  - rewrite parseHeaders_line_empty. by apply IH.
  - rewrite bool_decide_eq_false_2, Hc in Hstart by done. done.
  - rewrite (parseHeaders_line_header _ _ n v') by done. simpl.
    rewrite parse_loop_pending by done.
    rewrite bool_decide_eq_false_2 by done. rewrite Hc, Hnv. reflexivity.
Qed.

Lemma parseHeaders_unfolded (headerData : string) :
  well_formed_block headerData = true →
  parseHeaders headerData
  = fold_left store (unfolded_headers (Split headerData CRLF)) ∅.
Proof.
  unfold well_formed_block. intros [Hok Hstart]%andb_prop.
  rewrite <- parse_loop_initial by done. reflexivity.
Qed.

Lemma lookup_fold_store (hs : list (string * string)) (m : gmap string string) (name : string) :
  fold_left store hs m !! name =
  match last_value name hs with
  | Some v => Some v
  | None => m !! name
  end.
Proof.
  revert m. induction hs as [|[n v] rest IH]; intros m; [reflexivity|].
  simpl. rewrite IH. destruct (last_value name rest); [reflexivity|].
  unfold store. simpl. destruct (decide (n = name)) as [->|].
  - by rewrite lookup_insert_eq.
  - by rewrite lookup_insert_ne.
Qed.

Lemma dom_fold_store (hs : list (string * string)) (m : gmap string string) :
  dom (fold_left store hs m) = list_to_set hs.*1 ∪ dom m.
Proof.
  revert m. induction hs as [|[n v] rest IH]; intros m; simpl.
  - by rewrite (left_id_L ∅ (∪)).
  - rewrite IH. unfold store. simpl. rewrite dom_insert_L.
    by rewrite (assoc_L (∪)), (comm_L (∪) _ {[n]}).
Qed.

Lemma size_fold_store (hs : list (string * string)) :
  size (fold_left store hs (∅ : gmap string string)) = length (remove_dups hs.*1).
Proof.
  rewrite <- size_dom, dom_fold_store, dom_empty_L, (right_id_L ∅ (∪)).
  rewrite <- (size_list_to_set (C:=gset string) (remove_dups hs.*1))
    by apply NoDup_remove_dups.
  f_equal. apply set_eq. intros x.
  by rewrite !elem_of_list_to_set, elem_of_remove_dups.
Qed.

(** C4: on a header block in which every header line is well-formed, the
    map has, for every name, the value of the last header line with that name,
    continuation lines folded into it with single spaces, and it has exactly
    one entry for each distinct name. *)
Theorem parseHeaders_well_formed (headerData : string) :
  well_formed_block headerData = true →
  let hs := unfolded_headers (Split headerData CRLF) in
  (∀ name, parseHeaders headerData !! name = last_value name hs) ∧
  size (parseHeaders headerData) = length (remove_dups hs.*1).
Proof.
  intros Hwf hs. rewrite parseHeaders_unfolded by done. split.
  - intros name. rewrite lookup_fold_store.
    by destruct (last_value name _).
  - apply size_fold_store.
Qed.

(** C4 at a block with a repeated name and folded lines. *)
Lemma parseHeaders_well_formed_witness :
  let headerData :=
    "Subject: first" +:+ CRLF +:+ "To: bob@example.com," +:+ CRLF +:+
    "  carol@example.com" +:+ CRLF +:+ TABs +:+ "dave@example.com" +:+ CRLF +:+
    "Subject: second" +:+ CRLF +:+ " part" in
  let hs := unfolded_headers (Split headerData CRLF) in
  well_formed_block headerData = true ∧
  hs = [("Subject", "first");
        ("To", "bob@example.com, carol@example.com dave@example.com");
        ("Subject", "second part")] ∧
  (∀ name, parseHeaders headerData !! name = last_value name hs) ∧
  size (parseHeaders headerData) = 2.
Proof.
  intros headerData hs. split_and!; [vm_compute; reflexivity..| |].
  - apply (parseHeaders_well_formed headerData). vm_compute; reflexivity.
  - apply (parseHeaders_well_formed headerData). vm_compute; reflexivity.
Defined.

(** C5: a continuation line at the very start of the block is not dropped:
    its text, with the space put before it, becomes the beginning of the
    value of the first header that follows. *)
Theorem leading_continuation_leaks :
  parseHeaders (" orphan" +:+ CRLF +:+ "Subject: Hi")
  = {[ "Subject" := " orphanHi" ]}.
Proof. vm_compute. reflexivity. Qed.

(** ** The content type *)

Lemma ToLower_append (a b : string) : ToLower (a +:+ b) = ToLower a +:+ ToLower b.
Proof.
  induction a as [|c a IH]; [reflexivity|].
  rewrite append_cons. simpl. by rewrite append_cons, IH.
Qed.

Lemma ToLower_append_inv (v a b : string) :
  ToLower v = a +:+ b →
  ∃ a' b', v = a' +:+ b' ∧ ToLower a' = a ∧ ToLower b' = b.
Proof.
  revert v. induction a as [|c a IH]; intros v H.
  - by exists "", v.
  - rewrite append_cons in H. destruct v as [|d v]; [discriminate|].
    simpl in H. injection H as Hc Hv.
    destruct (IH v Hv) as (a' & b' & -> & Ha & Hb).
    exists (String d a'), b'. rewrite append_cons. simpl. by rewrite Hc, Ha.
Qed.

Lemma lower_byte_cases (c : ascii) :
  (lower_byte c = "h"%char ↔ c = "h"%char ∨ c = "H"%char) ∧
  (lower_byte c = "t"%char ↔ c = "t"%char ∨ c = "T"%char) ∧
  (lower_byte c = "m"%char ↔ c = "m"%char ∨ c = "M"%char) ∧
  (lower_byte c = "l"%char ↔ c = "l"%char ∨ c = "L"%char).
Proof.
  destruct c as [[] [] [] [] [] [] [] []]; vm_compute;
    repeat split; intros; try discriminate; auto;
    match goal with H : _ ∨ _ |- _ => destruct H; discriminate end.
Qed.

Lemma ToLower_html (w : string) : ToLower w = "html" ↔ html_any_case w.
Proof.
  unfold html_any_case. split.
  - destruct w as [|h [|t [|m [|l [|]]]]]; try discriminate.
    simpl. intros [= Hh Ht Hm Hl]. exists h, t, m, l. split; [reflexivity|].
    split_and!.
    + by apply (lower_byte_cases h).
    + by apply (lower_byte_cases t).
    + by apply (lower_byte_cases m).
    + by apply (lower_byte_cases l).
  - intros (h & t & m & l & -> & Hh & Ht & Hm & Hl). simpl.
    apply (lower_byte_cases h) in Hh. apply (lower_byte_cases t) in Ht.
    apply (lower_byte_cases m) in Hm. apply (lower_byte_cases l) in Hl.
    by rewrite Hh, Ht, Hm, Hl.
Qed.

Lemma Contains_ToLower_html (v : string) :
  Contains (ToLower v) "html" = true ↔ contains_html_any_case v.
Proof.
  rewrite Contains_spec. unfold contains_html_any_case. split.
  - intros (pre & post & H).
    apply ToLower_append_inv in H as (pre' & rest & -> & Hpre & H).
    apply ToLower_append_inv in H as (w & post' & -> & Hw & Hpost).
    exists pre', w, post'. split; [reflexivity|]. by apply ToLower_html.
  - intros (pre & w & post & -> & Hw%ToLower_html).
    exists (ToLower pre), (ToLower post). by rewrite !ToLower_append, Hw.
Qed.

Lemma contentType_of_html (hs : gmap string string) :
  contentType_of hs = models.HTML_BODYTYPE
  ↔ contains_html_any_case (map_get hs "Content-Type").
Proof.
  rewrite <- Contains_ToLower_html. unfold contentType_of.
  by destruct (Contains _ _).
Qed.

(** C6, as the code has it: the body is rich text exactly when the value
    stored under the key [Content-Type], spelled with these capitals,
    contains [html] in any letter case; in every other case, also with no
    entry under that key, it is plain text. *)
Theorem contentType_html_iff (env : Env) (s : Session) (data : string) :
  let headers := parseHeaders (header_block data) in
  ∃ req, request (Data env s (submitted data)) = Some req ∧
    let kind := models.contentType (models.body (users.message req)) in
    (kind = models.HTML_BODYTYPE
     ↔ contains_html_any_case (map_get headers "Content-Type")) ∧
    (kind = models.TEXT_BODYTYPE
     ↔ ¬ contains_html_any_case (map_get headers "Content-Type")) ∧
    (headers !! "Content-Type" = None → kind = models.TEXT_BODYTYPE).
Proof.
  intros headers. exists (translated env s data).
  split; [apply request_submitted|]. simpl. fold headers.
  pose proof (contentType_of_html headers) as H. split_and!.
  - exact H.
  - rewrite <- H. destruct (contentType_of headers); split; congruence.
  - intros Hnone. unfold contentType_of, map_get. by rewrite Hnone.
Qed.

(** C6 fails as stated: a message whose header is spelled [content-type]
    and has the value [text/html] is posted as plain text, though a lookup
    that ignores case finds the header and its value contains [html]. *)
Lemma lower_case_content_type_is_plain_text :
  let raw := "content-type: text/html" +:+ CRLFCRLF +:+ "<p>Hi</p>" in
  let headers := parseHeaders (header_block raw) in
  lookup_ignoring_case "Content-Type" headers = Some "text/html" ∧
  Contains (ToLower "text/html") "html" = true ∧
  posted_contentType (Data example_env NewSession (submitted raw))
  = Some models.TEXT_BODYTYPE.
Proof.
  cbv zeta. unfold posted_contentType. rewrite request_submitted.
  split_and!; vm_compute; reflexivity.
Qed.

(** ** Attachments *)

Lemma fold_attach_path (env : Env) (paths : list string)
    (acc : list models.FileAttachment * list string) :
  fold_left (attach_path env) paths acc
  = (acc.1 ++ omap (attachment_of env) paths, acc.2 ++ omap (warning_of env) paths).
Proof.
  revert acc. induction paths as [|path rest IH]; intros [atts warnings].
  - simpl. by rewrite !app_nil_r.
  - simpl fold_left. rewrite IH. unfold attach_path, attachment_of, warning_of.
    simpl. destruct (ReadFile env (TrimSpace path)); simpl;
      by rewrite <- ?app_assoc.
Qed.

Lemma load_attachments_nonempty (env : Env) (hs : gmap string string) :
  map_get hs "Attachments" ≠ "" →
  load_attachments env hs
  = (omap (attachment_of env) (Split (map_get hs "Attachments") ","),
     omap (warning_of env) (Split (map_get hs "Attachments") ",")).
Proof.
  intros Hne. unfold load_attachments.
  destruct (map_get hs "Attachments") as [|c v] eqn:Hv; [done|].
  simpl Nat.ltb. cbv iota. by rewrite fold_attach_path.
Qed.

Lemma omap_cons_match {A B : Type} (f : A → option B) (x : A) (l : list A) :
  omap f (x :: l) = match f x with Some y => y :: omap f l | None => omap f l end.
Proof. reflexivity. Qed.

Lemma readable_attachments (env : Env) (paths : list string) :
  forallb (readable env) paths = true →
  models.name <$> omap (attachment_of env) paths = TrimSpace <$> paths ∧
  omap (warning_of env) paths = [] ∧
  Forall (fun a => ReadFile env (models.name a) = inl (models.contentBytes a))
         (omap (attachment_of env) paths).
Proof.
  induction paths as [|path rest IH]; [done|].
  simpl forallb. intros [Hp Hrest]%andb_prop.
  destruct (IH Hrest) as (IH1 & IH2 & IH3).
  unfold readable in Hp.
  destruct (ReadFile env (TrimSpace path)) as [bytes|] eqn:Hread; [|done].
  assert (attachment_of env path
          = Some {| models.name := TrimSpace path; models.contentBytes := bytes |})
    as Ha by (unfold attachment_of; by rewrite Hread).
  assert (warning_of env path = None) as Hw
    by (unfold warning_of; by rewrite Hread).
  rewrite !omap_cons_match, Ha, Hw, fmap_cons, IH1, IH2.
  split_and!; [done..|]. by constructor.
Qed.

Lemma unreadable_attachment (env : Env) (path : string) (e : error) :
  ReadFile env (TrimSpace path) = inr e →
  attachment_of env path = None ∧ warning_of env path = Some (attachment_warning path e).
Proof. intros H. unfold attachment_of, warning_of. by rewrite H. Qed.

(** C8: when the [Attachments] header lists N paths of which exactly one
    cannot be read, [Data] still posts the request, with the subject, body
    and recipients of the message and with N-1 attachments: one for each
    other path, in order, named by the trimmed path and holding the bytes of
    the file.  It logs two lines: the warning [Error reading attachment],
    with the path as the header gives it and the error of the read, and then
    the line that reports the send. *)
Theorem one_unreadable_attachment
    (env : Env) (s : Session) (data : string) (pre post : list string)
    (p : string) (e : error) :
  let headers := parseHeaders (header_block data) in
  map_get headers "Attachments" ≠ "" →
  Split (map_get headers "Attachments") "," = pre ++ p :: post →
  forallb (readable env) (pre ++ post) = true →
  ReadFile env (TrimSpace p) = inr e →
  ∃ res req,
    Data env s (submitted data) = Done res ∧
    posted res = Some (from s, req) ∧
    logged res =
      [ "Error reading attachment " +:+ p +:+ ": " +:+ e +:+ String "010"%char "";
        match Post env (from s) req with
        | Some err =>
          "from=<" +:+ from s
          +:+ ">, host=graph.microsoft.com, msgid=NA, errormsg="
          +:+ String "034"%char (err +:+ String "034"%char (String "010"%char ""))
        | None =>
          "from=<" +:+ from s
          +:+ ">, host=graph.microsoft.com, msgid=NA, mailer=GoGraphSmtp, tls=on, recipients="
          +:+ comma_joined (to s) +:+ String "010"%char ""
        end ] ∧
    let msg := users.message req in
    length (models.attachments msg) = length (pre ++ p :: post) - 1 ∧
    models.name <$> models.attachments msg = TrimSpace <$> (pre ++ post) ∧
    Forall (fun a => ReadFile env (models.name a) = inl (models.contentBytes a))
           (models.attachments msg) ∧
    models.subject msg = map_get headers "Subject" ∧
    models.content (models.body msg) = body_segment data ∧
    models.toRecipients msg = toRecipients_of (loopvar env) (to s).
Proof.
  intros headers Hne Hsplit Hread Hp.
  assert (load_attachments env headers
          = (omap (attachment_of env) (pre ++ post), [attachment_warning p e]))
    as Hload.
  { rewrite load_attachments_nonempty, Hsplit by done.
    rewrite !omap_app, !omap_cons_match.
    destruct (unreadable_attachment env p e Hp) as [-> ->].
    pose proof Hread as Hboth. rewrite forallb_app in Hboth.
    apply andb_prop in Hboth as [Hpre Hpost].
    destruct (readable_attachments env pre Hpre) as (_ & -> & _).
    destruct (readable_attachments env post Hpost) as (_ & -> & _).
    reflexivity. }
  rewrite Data_submitted_outcome. fold headers. rewrite Hload.
  do 2 eexists. split; [reflexivity|]. cbn [posted logged snd].
  split; [reflexivity|]. split.
  - rewrite attachment_warning_text.
    destruct (Post env (from s) (translated env s data)).
    + by rewrite log_failure_text.
    + by rewrite log_success_text.
  - destruct (readable_attachments env _ Hread) as (Hnames & _ & Hbytes).
    unfold translated.
    cbn [users.message models.attachments models.subject models.body
         models.content models.toRecipients].
    fold headers. rewrite Hload. cbn [fst].
    split_and!; try done.
    apply (f_equal length) in Hnames. rewrite !length_fmap in Hnames.
    rewrite Hnames, !length_app. simpl length. lia.
Qed.

(** C8 at a message with three paths, the second of which names no file. *)
Lemma one_unreadable_attachment_witness :
  let raw := "Subject: files" +:+ CRLF +:+
             "Attachments: /etc/motd, /nonexistent ,/tmp/report.txt"
             +:+ CRLFCRLF +:+ "see attached" in
  let s := {| from := "alice@example.com"; to := ["bob@example.com"] |} in
  Split (map_get (parseHeaders (header_block raw)) "Attachments") ","
  = ["/etc/motd"] ++ " /nonexistent " :: ["/tmp/report.txt"] ∧
  forallb (readable example_env) (["/etc/motd"] ++ ["/tmp/report.txt"]) = true ∧
  ReadFile example_env (TrimSpace " /nonexistent ")
  = inr "open /nonexistent: no such file or directory" ∧
  ∃ res req,
    Data example_env s (submitted raw) = Done res ∧
    posted res = Some ("alice@example.com", req) ∧
    logged res =
      [ "Error reading attachment  /nonexistent : open /nonexistent: no such file or directory"
        +:+ String "010"%char "";
        "from=<alice@example.com>, host=graph.microsoft.com, msgid=NA, mailer=GoGraphSmtp, tls=on, recipients=bob@example.com"
        +:+ String "010"%char "" ] ∧
    length (models.attachments (users.message req)) = 2 ∧
    models.name <$> models.attachments (users.message req)
    = ["/etc/motd"; "/tmp/report.txt"].
Proof.
  intros raw s. split_and!; [vm_compute; reflexivity..|].
  destruct (one_unreadable_attachment example_env s raw
              ["/etc/motd"] ["/tmp/report.txt"] " /nonexistent "
              "open /nonexistent: no such file or directory")
    as (res & req & HD & Hp & Hl & Hn & Hnames & _).
  - vm_compute. discriminate.
  - vm_compute. reflexivity.
  - vm_compute. reflexivity.
  - vm_compute. reflexivity.
  - exists res, req. split_and!; [assumption..|exact Hl|assumption|assumption].
Defined.

(** ** Where [Data] cuts the message *)

Lemma length_slice_to (n : nat) (s : string) :
  String.length (slice_to n s) = n `min` String.length s.
Proof.
  revert s. induction n as [|n IH]; intros [|c s]; simpl; try reflexivity.
  by rewrite IH.
Qed.

Lemma Index_CRLFCRLF_length (s : string) (i : nat) :
  Index s CRLFCRLF = Some i →
  String.length s = i + 4 + String.length (slice_from (i + 4) s).
Proof.
  intros H. apply Index_Some_split in H.
  apply (f_equal String.length) in H.
  rewrite !length_append, length_slice_to in H.
  change (String.length CRLFCRLF) with 4 in H. lia.
Qed.

Lemma Index_CRLFCRLF_nil : Index "" CRLFCRLF = None.
Proof. reflexivity. Qed.

Lemma Count_loop_pos (fuel : nat) (s : string) (i : nat) :
  Index s CRLFCRLF = Some i → 0 < fuel →
  Count_loop fuel s CRLFCRLF
  = S (Count_loop (fuel - 1) (slice_from (i + 4) s) CRLFCRLF).
Proof.
  intros Hi Hfuel. destruct fuel as [|fuel]; [lia|].
  simpl. rewrite Hi. by rewrite Nat.sub_0_r.
Qed.

(** [parts[0]] is the text before the first separator. *)
Lemma header_block_before_first (message : string) :
  header_block message = before_first_separator message.
Proof.
  unfold header_block, before_first_separator, Split, genSplit, Count.
  destruct (Index message CRLFCRLF) as [i|] eqn:Hi.
  - pose proof (Index_CRLFCRLF_length _ _ Hi) as Hlen.
    rewrite (Count_loop_pos _ _ i) by (done || lia).
    match goal with |- context [genSplit_loop _ _ ?k] =>
      destruct k as [|n] eqn:Hn; [lia|] end.
    simpl. by rewrite Hi.
  - match goal with |- context [genSplit_loop _ _ ?k] => destruct k end;
      simpl; by rewrite ?Hi.
Qed.

(** [parts[1]], when there is one, is the text between the first separator
    and the second. *)
Lemma body_segment_between (message : string) :
  body_segment message = before_first_separator (after_first_separator message).
Proof.
  unfold body_segment, after_first_separator, Split, genSplit, Count.
  destruct (Index message CRLFCRLF) as [i|] eqn:Hi.
  - pose proof (Index_CRLFCRLF_length _ _ Hi) as Hlen.
    rewrite (Count_loop_pos _ _ i) by (done || lia).
    change (String.length CRLFCRLF) with 4.
    remember (slice_from (i + 4) message) as rest eqn:Hrest.
    unfold before_first_separator.
    destruct (Index rest CRLFCRLF) as [j|] eqn:Hj.
    + pose proof (Index_CRLFCRLF_length _ _ Hj) as Hlen'.
      rewrite (Count_loop_pos _ _ j) by (done || lia).
      match goal with |- context [genSplit_loop _ _ ?k] =>
        destruct k as [|[|n]] eqn:Hn; [lia..|] end.
      simpl. rewrite Hi. simpl. by rewrite <- Hrest, Hj.
    + match goal with |- context [genSplit_loop _ _ ?k] =>
        destruct k as [|[|n]] eqn:Hk; [lia|..] end; simpl; rewrite ?Hi; simpl;
        by rewrite <- ?Hrest, ?Hj.
  - unfold before_first_separator. rewrite Index_CRLFCRLF_nil.
    match goal with |- context [genSplit_loop _ _ ?k] => destruct k end;
      simpl; by rewrite ?Hi.
Qed.

(** C2: the body [Data] posts is not everything after the first separator
    but the text between the first separator and the second.  For a message
    whose body has two paragraphs, everything after the first separator is
    both paragraphs, and the body posted is the first paragraph only. *)
Theorem body_cut_at_second_separator (env : Env) (s : Session) :
  (∀ data, posted_content (Data env s (submitted data))
           = Some (before_first_separator (after_first_separator data))) ∧
  let raw := "Subject: Hi" +:+ CRLFCRLF +:+ "Line1" +:+ CRLFCRLF +:+ "Line2" in
  after_first_separator raw = "Line1" +:+ CRLFCRLF +:+ "Line2" ∧
  posted_content (Data env s (submitted raw)) = Some "Line1".
Proof.
  split.
  - intros data. unfold posted_content. rewrite request_submitted. simpl.
    by rewrite body_segment_between.
  - split; [reflexivity|]. unfold posted_content. by rewrite request_submitted.
Qed.

(** * Further properties *)

(** ** The recipient list *)

Lemma to_run (s0 : Session) (cmds : list Command) :
  to (run s0 cmds)
  = (if (recipients_since_reset cmds).1 then [] else to s0)
    ++ (recipients_since_reset cmds).2.
Proof.
  revert s0. induction cmds as [|c rest IH]; intros s0.
  - simpl. by rewrite app_nil_r.
  - unfold run in *. simpl fold_left. rewrite IH. simpl recipients_since_reset.
    destruct (recipients_since_reset rest) as [[|] declared]; simpl; [done|].
    destruct c; simpl; try done. by rewrite <- app_assoc.
Qed.

Lemma recipients_since_reset_rcpt (recipients : list string) :
  recipients_since_reset (RCPT <$> recipients) = (false, recipients).
Proof.
  induction recipients as [|t rest IH]; [reflexivity|].
  rewrite fmap_cons. simpl. by rewrite IH.
Qed.

Lemma replies_all_nil (s0 : Session) (cmds : list Command) :
  replies s0 cmds = replicate (length cmds) None.
Proof.
  revert s0. induction cmds as [|c rest IH]; intros s0; [reflexivity|].
  simpl. rewrite IH. by destruct c.
Qed.

(** X1: the recipient list of a session after any command sequence is the
    recipients declared since the last RSET, in the order declared and with
    repetitions kept, after the recipients the session had before if there
    was no RSET.  The session methods refuse nothing: every call of the
    sequence returns no error, and [Rcpt] returns no error and appends the
    recipient whatever the length of the list is. *)
Theorem recipients_accumulate (s0 : Session) (cmds : list Command) (more : list string) :
  to (run s0 cmds)
  = (if (recipients_since_reset cmds).1 then [] else to s0)
    ++ (recipients_since_reset cmds).2 ∧
  to (run s0 (cmds ++ (RCPT <$> more))) = to (run s0 cmds) ++ more ∧
  replies s0 (cmds ++ (RCPT <$> more))
  = replicate (length cmds + length more) None ∧
  (∀ s recipient, Rcpt s recipient
                  = ({| from := from s; to := to s ++ [recipient] |}, None)).
Proof.
  split_and!; [apply to_run| | |done].
  - unfold run. rewrite fold_left_app. fold (run s0 cmds).
    fold (run (run s0 cmds) (RCPT <$> more)).
    by rewrite to_run, recipients_since_reset_rcpt.
  - by rewrite replies_all_nil, length_app, length_fmap.
Qed.

Lemma addresses_fmap (f : string → string) (l : list string) :
  addresses ((fun t => make_recipient (f t)) <$> l) = f <$> l.
Proof.
  unfold addresses. induction l as [|t rest IH]; [reflexivity|].
  rewrite !fmap_cons. by rewrite IH.
Qed.

Lemma fmap_const_replicate (a : string) (l : list string) :
  (fun _ => a) <$> l = replicate (length l) a.
Proof. induction l as [|t rest IH]; [reflexivity|]. rewrite fmap_cons. simpl. by rewrite IH. Qed.

Lemma addresses_toRecipients_of (lv : LoopVar) (to_ : list string) :
  addresses (toRecipients_of lv to_)
  = match lv with
    | PerIteration => to_
    | PerLoop => replicate (length to_) (List.last to_ "")
    end.
Proof.
  unfold toRecipients_of. destruct lv.
  - rewrite (addresses_fmap (fun _ => List.last to_ "")).
    apply fmap_const_replicate.
  - rewrite (addresses_fmap id). apply list_fmap_id.
Qed.

(** X2: the request [Data] posts has one recipient record for every
    recipient declared since the last RSET.  With one loop variable per
    iteration the records carry the declared addresses, in order and with
    repetitions; with one variable for the whole loop every record carries
    the address declared last. *)
Theorem posted_recipient_records
    (env : Env) (cmds : list Command) (data : string) :
  let declared := to (run NewSession cmds) in
  declared = (recipients_since_reset cmds).2 ∧
  ∃ rs, posted_recipients (Data env (run NewSession cmds) (submitted data)) = Some rs ∧
    length rs = length declared ∧
    addresses rs = match loopvar env with
                   | PerIteration => declared
                   | PerLoop => replicate (length declared) (List.last declared "")
                   end.
Proof.
  intros declared. split.
  - unfold declared. rewrite to_run. by destruct (recipients_since_reset cmds).1.
  - unfold posted_recipients. rewrite request_submitted. simpl.
    eexists. split; [reflexivity|]. fold declared.
    pose proof (addresses_toRecipients_of (loopvar env) declared) as H.
    split; [|exact H].
    apply (f_equal length) in H. unfold addresses in H. rewrite length_fmap in H.
    rewrite H. destruct (loopvar env); [by rewrite length_replicate|done].
Qed.

(** ** What [Data] returns and logs *)

(** X3: what [Data] returns.  A reader error is returned as it is, with
    nothing posted and nothing logged.  Otherwise the request is posted,
    once, whatever the headers hold; [Data] returns an error exactly when the
    send does, the error of the send after the text [failed to send email: ];
    and the last line logged reports the send: on failure the sender, the
    host and the error between double quotes; on success the sender, the
    host, the mailer and the recipients with commas between them. *)
Theorem Data_outcome (env : Env) (s : Session) (r : Reader) :
  ∃ res, Data env s r = Done res ∧
    match r_err r with
    | Some e => ret res = Some e ∧ logged res = [] ∧ posted res = None
    | None =>
      ∃ req, posted res = Some (from s, req) ∧
        match Post env (from s) req with
        | Some e =>
          ret res = Some ("failed to send email: " +:+ e) ∧
          last (logged res)
          = Some ("from=<" +:+ from s
                  +:+ ">, host=graph.microsoft.com, msgid=NA, errormsg="
                  +:+ String "034"%char
                        (e +:+ String "034"%char (String "010"%char "")))
        | None =>
          ret res = None ∧
          last (logged res)
          = Some ("from=<" +:+ from s
                  +:+ ">, host=graph.microsoft.com, msgid=NA, mailer=GoGraphSmtp, tls=on, recipients="
                  +:+ comma_joined (to s) +:+ String "010"%char "")
        end
    end.
Proof.
  destruct r as [data [e|]].
  - eexists. split; [reflexivity|]. done.
  - change (Data env s {| r_data := data; r_err := None |})
      with (Data env s (submitted data)).
    rewrite Data_submitted_outcome. eexists. split; [reflexivity|].
    cbn [r_err ret logged posted]. eexists. split; [reflexivity|].
    destruct (Post env (from s) (translated env s data));
      cbn [fmap option_fmap option_map]; rewrite last_snoc.
    + by rewrite log_failure_text.
    + by rewrite log_success_text.
Qed.

(** ** [parseHeaders] on any input *)

Lemma parseHeaders_line_other (st : ParseState) (line : string) :
  line ≠ "" → is_continuation line = false →
  parseHeaders_line st line =
  let st1 :=
    if decide (currentHeader st ≠ "") then
      {| headers := <[currentHeader st := currentValue st]> (headers st);
         currentHeader := currentHeader st;
         currentValue := "" |}
    else st in
  match name_value line with
  | Some (n, v) =>
    {| headers := headers st1;
       currentHeader := TrimSpace n;
       currentValue := currentValue st1 +:+ TrimSpace v |}
  | None => st1
  end.
Proof.
  intros Hne Hc. unfold parseHeaders_line.
  rewrite decide_False by done.
  rewrite is_continuation_HasPrefix, Hc, SplitN_colon by done.
  by destruct (name_value line) as [[n v]|].
Qed.

(** The keys of the map and the pending header are never empty and come
    from the names of the lines read so far. *)
Lemma parse_loop_keys (lines : list string) (Q : string → Prop) (st : ParseState) :
  (∀ k, is_Some (headers st !! k) → k ≠ "" ∧ Q k) →
  (currentHeader st ≠ "" → Q (currentHeader st)) →
  ∀ k, is_Some (flush (fold_left parseHeaders_line lines st) !! k) →
       k ≠ "" ∧ (Q k ∨ k ∈ candidate_names lines).
Proof.
  revert Q st. induction lines as [|line rest IH]; intros Q st Hm Hh k.
  - simpl. unfold flush. destruct (decide (currentHeader st ≠ "")) as [Hne|].
    + destruct (decide (currentHeader st = k)) as [<-|Hk].
      * intros _. split; [done|]. left. by apply Hh.
      * rewrite lookup_insert_ne by done. intros Hs.
        destruct (Hm k Hs). auto.
    + intros Hs. destruct (Hm k Hs). auto.
  - simpl fold_left. simpl candidate_names.
    destruct (decide (line = "")) as [->|Hne].
    { rewrite parseHeaders_line_empty. simpl. by apply IH. }
    rewrite bool_decide_eq_false_2 by done. simpl orb.
    destruct (is_continuation line) eqn:Hc.
    { rewrite parseHeaders_line_continuation by done. by apply IH. }
    rewrite parseHeaders_line_other by done. cbv zeta.
    assert (∀ k',
      is_Some ((if decide (currentHeader st ≠ "")
                then <[currentHeader st := currentValue st]> (headers st)
                else headers st) !! k') → k' ≠ "" ∧ Q k') as Hm'.
    { intros k'. destruct (decide (currentHeader st ≠ "")) as [Hcur|]; [|apply Hm].
      destruct (decide (currentHeader st = k')) as [<-|Hk'].
      - intros _. split; [done|]. by apply Hh.
      - rewrite lookup_insert_ne by done. apply Hm. }
    destruct (name_value line) as [[n v]|]; intros Hs.
    + eapply (IH (fun k' => Q k' ∨ k' = TrimSpace n)) in Hs.
      * destruct Hs as [Hk [[HQ| ->]|Hin]]; (split; [done|]); auto.
        -- right. apply list_elem_of_here.
        -- right. by apply list_elem_of_further.
      * intros k' Hs'. simpl in Hs'.
        destruct (decide (currentHeader st ≠ "")); destruct (Hm' k' Hs'); auto.
      * simpl. auto.
    + eapply (IH Q) in Hs; [exact Hs| |].
      * intros k' Hs'.
        destruct (decide (currentHeader st ≠ "")); simpl in Hs'; by apply Hm'.
      * destruct (decide (currentHeader st ≠ "")); simpl; auto.
Qed.

Lemma length_remove_dups_le (l : list string) : length (remove_dups l) ≤ length l.
Proof.
  induction l as [|x l IH]; [done|]. simpl.
  destruct (decide_rel _ x l); simpl; lia.
Qed.

Lemma size_list_to_set_le (l : list string) :
  size (list_to_set l : gset string) ≤ length l.
Proof.
  etrans; [|apply length_remove_dups_le].
  rewrite <- (size_list_to_set (C:=gset string) (remove_dups l))
    by apply NoDup_remove_dups.
  apply subseteq_size. intros x.
  by rewrite !elem_of_list_to_set, elem_of_remove_dups.
Qed.

Lemma parseHeaders_flush (headerData : string) :
  parseHeaders headerData
  = flush (fold_left parseHeaders_line (Split headerData CRLF)
             {| headers := ∅; currentHeader := ""; currentValue := "" |}).
Proof. reflexivity. Qed.

Lemma parseHeaders_lookup_names (headerData k : string) :
  is_Some (parseHeaders headerData !! k) →
  k ≠ "" ∧ k ∈ candidate_names (Split headerData CRLF).
Proof.
  intros Hs. rewrite parseHeaders_flush in Hs.
  eapply (parse_loop_keys _ (fun _ => False)) in Hs.
  - destruct Hs as [Hk [[]|Hin]]. done.
  - intros k'. simpl. rewrite lookup_empty. by intros [? ?].
  - done.
Qed.

(** X4: whatever the header block holds, [parseHeaders] gives a map with at
    most one entry per line that is not empty, not a continuation and has a
    colon; every key of the map is the trimmed name of such a line, and no
    key is the empty string. *)
Theorem parseHeaders_keys (headerData : string) :
  let names := candidate_names (Split headerData CRLF) in
  size (parseHeaders headerData) ≤ length names ∧
  dom (parseHeaders headerData) ⊆ list_to_set names ∧
  parseHeaders headerData !! "" = None.
Proof.
  intros names.
  pose proof (parseHeaders_lookup_names headerData) as H. fold names in H.
  assert (dom (parseHeaders headerData) ⊆ list_to_set names) as Hdom.
  { intros k Hk. apply elem_of_dom in Hk. apply elem_of_list_to_set. by apply H. }
  split_and!.
  - rewrite <- size_dom. etrans; [by apply subseteq_size|]. apply size_list_to_set_le.
  - exact Hdom.
  - apply eq_None_not_Some. intros Hs. by destruct (H "" Hs).
Qed.

(** The loop from a state with no pending header but text in the builder,
    on lines that are header lines or continuation lines: the text, and the
    continuation lines read before the first header line, end up in front
    of the value of that header. *)
Lemma parse_loop_leading (lines : list string) (v0 : string) :
  forallb line_ok lines = true →
  flush (fold_left parseHeaders_line lines
           {| headers := ∅; currentHeader := ""; currentValue := v0 |})
  = fold_left store
      (prepend_first (v0 +:+ continuation_text lines) (unfolded_headers lines)) ∅.
Proof.
  revert v0. induction lines as [|line rest IH]; intros v0 Hok; [reflexivity|].
  simpl in Hok. apply andb_prop in Hok as [Hline Hrest].
  simpl fold_left.
  destruct (line_ok_cases line Hline) as [->|[[Hne Hc]|(Hne & Hc & n & v' & Hnv & Hn)]].
  - rewrite parseHeaders_line_empty. by apply IH.
  - rewrite parseHeaders_line_continuation by done. simpl.
    rewrite IH by done. rewrite bool_decide_eq_false_2 by done.
    rewrite Hc. simpl. by rewrite !append_assoc.
  - rewrite (parseHeaders_line_header _ _ n v') by done. simpl.
    rewrite parse_loop_pending by done.
    rewrite bool_decide_eq_false_2 by done. rewrite Hc, Hnv. simpl.
    unfold store at 2. simpl. by rewrite append_nil_r, append_assoc.
Qed.

(** X5: on a header block made of header lines with a colon and a name,
    continuation lines and empty lines, in any order, the map is the one of
    the unfolded headers, last occurrence first, except that continuation
    lines before the first header line are not dropped: their folded text
    is put in front of the value of the first header. *)
Theorem parseHeaders_folded (headerData : string) :
  forallb line_ok (Split headerData CRLF) = true →
  let lines := Split headerData CRLF in
  ∀ name, parseHeaders headerData !! name
          = last_value name
              (prepend_first (continuation_text lines) (unfolded_headers lines)).
Proof.
  intros Hok lines name. rewrite parseHeaders_flush.
  rewrite parse_loop_leading by done. rewrite lookup_fold_store.
  rewrite append_nil_l. fold lines. by destruct (last_value name _).
Qed.

(** X5 at a block that starts with two continuation lines. *)
Lemma parseHeaders_folded_witness :
  let headerData :=
    " orphan" +:+ CRLF +:+ TABs +:+ "line" +:+ CRLF +:+ "Subject: Hi" +:+ CRLF +:+
    " there" +:+ CRLF +:+ "To: bob@example.com" in
  forallb line_ok (Split headerData CRLF) = true ∧
  parseHeaders headerData !! "Subject" = Some " orphan lineHi there" ∧
  parseHeaders headerData !! "To" = Some "bob@example.com".
Proof.
  intros headerData. split; [vm_compute; reflexivity|]. split.
  - rewrite (parseHeaders_folded headerData) by (vm_compute; reflexivity).
    vm_compute. reflexivity.
  - rewrite (parseHeaders_folded headerData) by (vm_compute; reflexivity).
    vm_compute. reflexivity.
Defined.

Lemma last_cons_default (h n : string) (l : list string) :
  default h (last (n :: l)) = default n (last l).
Proof. rewrite last_cons. by destruct (last l). Qed.

Lemma currentHeader_pending (lines : list string) (m : gmap string string) (h v : string) :
  h ≠ "" → forallb line_ok lines = true →
  currentHeader (fold_left parseHeaders_line lines
                   {| headers := m; currentHeader := h; currentValue := v |})
  = default h (last (unfolded_headers lines).*1) ∧
  default h (last (unfolded_headers lines).*1) ≠ "".
Proof.
  revert m h v. induction lines as [|line rest IH]; intros m h v Hh Hok; [done|].
  simpl in Hok. apply andb_prop in Hok as [Hline Hrest]. simpl fold_left.
  simpl unfolded_headers.
  destruct (line_ok_cases line Hline) as [->|[[Hne Hc]|(Hne & Hc & n & v' & Hnv & Hn)]].
  - rewrite parseHeaders_line_empty. by apply IH.
  - rewrite parseHeaders_line_continuation by done. simpl.
    rewrite bool_decide_eq_false_2, Hc by done. simpl. by apply IH.
  - rewrite (parseHeaders_line_header _ _ n v') by done. simpl.
    rewrite decide_True by done.
    rewrite bool_decide_eq_false_2, Hc, Hnv by done. simpl orb. cbv iota.
    rewrite fmap_cons. simpl fst. rewrite last_cons_default. by apply IH.
Qed.

Lemma currentHeader_initial (lines : list string) :
  forallb line_ok lines = true → starts_with_header lines = true →
  ∀ h, last (unfolded_headers lines).*1 = Some h →
  h ≠ "" ∧
  currentHeader (fold_left parseHeaders_line lines
                   {| headers := ∅; currentHeader := ""; currentValue := "" |}) = h.
Proof.
  induction lines as [|line rest IH]; intros Hok Hstart h Hlast; [done|].
  simpl in Hok. apply andb_prop in Hok as [Hline Hrest].
  simpl in Hstart. simpl fold_left. simpl unfolded_headers in Hlast.
  destruct (line_ok_cases line Hline) as [->|[[Hne Hc]|(Hne & Hc & n & v' & Hnv & Hn)]].
  - rewrite parseHeaders_line_empty. by apply IH.
  - rewrite bool_decide_eq_false_2, Hc in Hstart by done. done.
  - rewrite (parseHeaders_line_header _ _ n v') by done. simpl.
    rewrite bool_decide_eq_false_2, Hc, Hnv in Hlast by done.
    simpl orb in Hlast. cbv iota in Hlast.
    rewrite fmap_cons in Hlast. simpl fst in Hlast.
    destruct (currentHeader_pending rest ∅ (TrimSpace n) (TrimSpace v') Hn Hrest)
      as [Heq Hnonempty].
    assert (default (TrimSpace n) (last (unfolded_headers rest).*1) = h) as Hh.
    { rewrite <- (last_cons_default ""), Hlast. done. }
    rewrite Hh in Heq, Hnonempty. done.
Qed.

(** X6: a line with no colon (not empty, not a continuation) is not simply
    dropped.  After well-formed lines with at least one header, it flushes
    the pending header and leaves it pending with an empty value: the value
    of the header before it is replaced by the empty string, followed by the
    folded continuation lines that come after it. *)
Theorem colonless_line_erases_value
    (headerData : string) (pre post : list string) (junk h : string) :
  Split headerData CRLF = pre ++ junk :: post →
  forallb line_ok pre = true → starts_with_header pre = true →
  last (unfolded_headers pre).*1 = Some h →
  colonless junk = true →
  forallb line_ok post = true →
  parseHeaders headerData
  = fold_left store (unfolded_headers post)
      (<[h := continuation_text post]> (fold_left store (unfolded_headers pre) ∅)).
Proof.
  intros Hsplit Hpre Hstart Hlast Hjunk Hpost.
  rewrite parseHeaders_flush, Hsplit, fold_left_app. simpl fold_left.
  destruct (currentHeader_initial pre Hpre Hstart h Hlast) as [Hh Hcur].
  pose proof (parse_loop_initial pre Hpre Hstart) as Hflush.
  unfold colonless in Hjunk.
  apply andb_prop in Hjunk as [[Hne Hc]%andb_prop Hnv].
  apply negb_true_iff, bool_decide_eq_false_1 in Hne.
  apply negb_true_iff in Hc.
  rewrite parseHeaders_line_other by done. cbv zeta.
  destruct (name_value junk); [done|].
  unfold flush in Hflush. rewrite Hcur in *.
  rewrite decide_True in Hflush by done. rewrite decide_True by done.
  rewrite parse_loop_pending by done. simpl. by rewrite Hflush.
Qed.

(** X6 at a block whose second line has no colon. *)
Lemma colonless_line_erases_value_witness :
  let headerData :=
    "Subject: Hi" +:+ CRLF +:+ "no colon here" +:+ CRLF +:+ " tail" +:+ CRLF +:+
    "To: bob@example.com" in
  Split headerData CRLF
  = ["Subject: Hi"] ++ "no colon here" :: [" tail"; "To: bob@example.com"] ∧
  colonless "no colon here" = true ∧
  parseHeaders headerData = {[ "Subject" := " tail"; "To" := "bob@example.com" ]}.
Proof.
  intros headerData. split_and!; [vm_compute; reflexivity..|].
  rewrite (colonless_line_erases_value headerData
             ["Subject: Hi"] [" tail"; "To: bob@example.com"]
             "no colon here" "Subject");
    vm_compute; reflexivity.
Defined.

(** ** Attachments, whatever can be read *)

Lemma names_of_attachments (env : Env) (paths : list string) :
  models.name <$> omap (attachment_of env) paths
  = TrimSpace <$> List.filter (readable env) paths.
Proof.
  induction paths as [|path rest IH]; [reflexivity|].
  rewrite omap_cons_match. simpl List.filter.
  unfold attachment_of at 1, readable at 1.
  destruct (ReadFile env (TrimSpace path)); [|exact IH].
  rewrite !fmap_cons. by rewrite IH.
Qed.

Lemma count_of_warnings (env : Env) (paths : list string) :
  length (omap (warning_of env) paths)
  = length (List.filter (fun p => negb (readable env p)) paths).
Proof.
  induction paths as [|path rest IH]; [reflexivity|].
  rewrite omap_cons_match. simpl List.filter.
  unfold warning_of at 1, readable at 1.
  destruct (ReadFile env (TrimSpace path)); simpl; by rewrite ?IH.
Qed.

Lemma attachment_or_warning (env : Env) (paths : list string) :
  length (omap (attachment_of env) paths) + length (omap (warning_of env) paths)
  = length paths.
Proof.
  induction paths as [|path rest IH]; [reflexivity|].
  rewrite !omap_cons_match. unfold attachment_of at 1, warning_of at 1.
  destruct (ReadFile env (TrimSpace path)); simpl; lia.
Qed.

Lemma warnings_text (env : Env) (paths : list string) :
  omap (warning_of env) paths
  = omap (fun path =>
            match ReadFile env (TrimSpace path) with
            | inl _ => None
            | inr err =>
              Some ("Error reading attachment " +:+ path +:+ ": " +:+ err
                    +:+ String "010"%char "")
            end) paths.
Proof.
  induction paths as [|path rest IH]; [reflexivity|].
  rewrite !omap_cons_match, IH. unfold warning_of.
  by destruct (ReadFile env (TrimSpace path)).
Qed.

(** X7: when the [Attachments] header has a value, every path of its
    comma-separated list gives either an attachment or a warning, never both
    and never neither, whatever number of paths cannot be read: the request
    is posted with one attachment for each readable path, in the order of the
    list and named by the trimmed path, and the log holds, in the order of
    the list, one warning [Error reading attachment] for each unreadable
    path, with the path as the header gives it and the error of the read,
    and after them the line that reports the send. *)
Theorem attachments_follow_readability (env : Env) (s : Session) (data : string) :
  let headers := parseHeaders (header_block data) in
  let paths := Split (map_get headers "Attachments") "," in
  let warnings :=
    omap (fun path =>
            match ReadFile env (TrimSpace path) with
            | inl _ => None
            | inr err =>
              Some ("Error reading attachment " +:+ path +:+ ": " +:+ err
                    +:+ String "010"%char "")
            end) paths in
  map_get headers "Attachments" ≠ "" →
  ∃ res req,
    Data env s (submitted data) = Done res ∧
    posted res = Some (from s, req) ∧
    models.attachments (users.message req) = omap (attachment_of env) paths ∧
    models.name <$> models.attachments (users.message req)
    = TrimSpace <$> List.filter (readable env) paths ∧
    logged res =
      warnings ++
      [ match Post env (from s) req with
        | Some err =>
          "from=<" +:+ from s
          +:+ ">, host=graph.microsoft.com, msgid=NA, errormsg="
          +:+ String "034"%char (err +:+ String "034"%char (String "010"%char ""))
        | None =>
          "from=<" +:+ from s
          +:+ ">, host=graph.microsoft.com, msgid=NA, mailer=GoGraphSmtp, tls=on, recipients="
          +:+ comma_joined (to s) +:+ String "010"%char ""
        end ] ∧
    length warnings
    = length (List.filter (fun p => negb (readable env p)) paths) ∧
    length (models.attachments (users.message req)) + length warnings
    = length paths.
Proof.
  intros headers paths warnings Hne.
  rewrite Data_submitted_outcome. do 2 eexists.
  split; [reflexivity|]. cbn [posted logged]. split; [reflexivity|].
  unfold translated. cbn [users.message models.attachments].
  fold headers. rewrite load_attachments_nonempty by done. fold paths.
  cbn [fst snd]. unfold warnings. rewrite <- warnings_text.
  split_and!; [reflexivity| | | |].
  - apply names_of_attachments.
  - f_equal. f_equal.
    destruct (Post env (from s) _).
    + by rewrite log_failure_text.
    + by rewrite log_success_text.
  - apply count_of_warnings.
  - apply attachment_or_warning.
Qed.

(** X7 at a message with three paths, none of which can be read, and a
    send that fails. *)
Lemma attachments_follow_readability_witness :
  let raw := "Attachments: /a, /b ,/c" +:+ CRLFCRLF +:+ "see attached" in
  let s := {| from := "alice@example.com"; to := ["bob@example.com"] |} in
  map_get (parseHeaders (header_block raw)) "Attachments" = "/a, /b ,/c" ∧
  ∃ res req,
    Data failing_env s (submitted raw) = Done res ∧
    posted res = Some ("alice@example.com", req) ∧
    models.attachments (users.message req) = [] ∧
    logged res =
      [ "Error reading attachment /a: open /a: permission denied"
        +:+ String "010"%char "";
        "Error reading attachment  /b : open /b: permission denied"
        +:+ String "010"%char "";
        "Error reading attachment /c: open /c: permission denied"
        +:+ String "010"%char "";
        "from=<alice@example.com>, host=graph.microsoft.com, msgid=NA, errormsg="
        +:+ String "034"%char
              ("context deadline exceeded"
               +:+ String "034"%char (String "010"%char "")) ].
Proof.
  intros raw s. split; [vm_compute; reflexivity|].
  destruct (attachments_follow_readability failing_env s raw)
    as (res & req & HD & Hp & Ha & _ & Hl & _).
  - vm_compute. discriminate.
  - exists res, req. split_and!; [exact HD|exact Hp|..].
    + rewrite Ha. vm_compute. reflexivity.
    + rewrite Hl. vm_compute. reflexivity.
Defined.

(** X8: when the header block has no [Attachments] entry, or an empty one,
    [Data] reads no file: with any other file system it returns, logs and
    posts the same, and the request has no attachment. *)
Theorem no_attachments_header_reads_no_file
    (env : Env) (files : string → string + error) (s : Session) (data : string) :
  map_get (parseHeaders (header_block data)) "Attachments" = "" →
  Data (with_files env files) s (submitted data) = Data env s (submitted data) ∧
  posted_attachments (Data env s (submitted data)) = Some [].
Proof.
  intros Hnone.
  assert (∀ e, load_attachments e (parseHeaders (header_block data)) = ([], []))
    as Hload by (intros e; unfold load_attachments; by rewrite Hnone).
  assert (∀ e, translated e s data
    = {| users.message :=
           {| models.subject := map_get (parseHeaders (header_block data)) "Subject";
              models.body :=
                {| models.content := body_segment data;
                   models.contentType := contentType_of (parseHeaders (header_block data)) |};
              models.toRecipients := toRecipients_of (loopvar e) (to s);
              models.attachments := [] |};
         users.saveToSentItems := true |}) as Htr
    by (intros e; unfold translated; by rewrite Hload).
  split.
  - rewrite !Data_submitted_outcome, !Hload, !Htr. reflexivity.
  - unfold posted_attachments. rewrite request_submitted, Htr. reflexivity.
Qed.

(** X8 at a message with a subject only, read with no file readable. *)
Lemma no_attachments_header_reads_no_file_witness :
  let raw := "Subject: Hi" +:+ CRLFCRLF +:+ "Hello" in
  map_get (parseHeaders (header_block raw)) "Attachments" = "" ∧
  Data (with_files example_env (ReadFile failing_env)) NewSession (submitted raw)
  = Data example_env NewSession (submitted raw) ∧
  posted_attachments (Data example_env NewSession (submitted raw)) = Some [].
Proof.
  intros raw. split; [vm_compute; reflexivity|].
  apply (no_attachments_header_reads_no_file example_env (ReadFile failing_env)
           NewSession raw).
  vm_compute. reflexivity.
Defined.

(** ** No separator inside the header block or the body *)

Lemma prefix_slice_to (p s : string) (n : nat) :
  String.prefix p (slice_to n s) = true → String.prefix p s = true.
Proof.
  revert s n. induction p as [|c p IH]; intros s n; [intros _; apply prefix_nil|].
  destruct n as [|n], s as [|d s]; simpl; try discriminate.
  destruct (ascii_dec c d); [apply IH|discriminate].
Qed.

Lemma Index_slice_to_None (s sub : string) (i : nat) :
  sub ≠ "" → Index s sub = Some i → Index (slice_to i s) sub = None.
Proof.
  intros Hsub. revert i. induction s as [|c s IH]; intros i; rewrite Index_eq;
    destruct (HasPrefix _ sub) eqn:Hp; try discriminate.
  - intros [= <-]. by destruct sub.
  - intros [= <-]. by destruct sub.
  - destruct (Index s sub) as [j|] eqn:Hj; [|discriminate].
    intros [= <-]. simpl slice_to. rewrite Index_eq.
    destruct (HasPrefix (String c (slice_to j s)) sub) eqn:Hp'.
    + unfold HasPrefix in *.
      apply (prefix_slice_to sub (String c s) (S j)) in Hp'. congruence.
    + by rewrite (IH j).
Qed.

Lemma before_first_separator_clean (s : string) :
  Contains (before_first_separator s) CRLFCRLF = false.
Proof.
  unfold Contains, before_first_separator.
  destruct (Index s CRLFCRLF) as [i|] eqn:Hi.
  - by rewrite (Index_slice_to_None s CRLFCRLF i).
  - by rewrite Hi.
Qed.

(** X9: neither the header block [Data] parses nor the body it posts holds
    a blank-line separator; the header block is the text before the first
    separator, and a message with no separator is header block as a whole
    and is posted with an empty body. *)
Theorem header_block_and_body_hold_no_separator
    (env : Env) (s : Session) (data : string) :
  ∃ body, posted_content (Data env s (submitted data)) = Some body ∧
    Contains body CRLFCRLF = false ∧
    Contains (header_block data) CRLFCRLF = false ∧
    header_block data = before_first_separator data ∧
    (Contains data CRLFCRLF = false → header_block data = data ∧ body = "").
Proof.
  exists (body_segment data). unfold posted_content. rewrite request_submitted.
  split; [reflexivity|].
  rewrite body_segment_between, header_block_before_first.
  split_and!; [apply before_first_separator_clean..|reflexivity|].
  unfold Contains, before_first_separator, after_first_separator.
  destruct (Index data CRLFCRLF); [discriminate|]. done.
Qed.

(** ** Headers the parser does not produce *)

Lemma map_get_unlisted (headerData k : string) :
  k ∉ candidate_names (Split headerData CRLF) →
  map_get (parseHeaders headerData) k = "".
Proof.
  intros Hk. unfold map_get.
  destruct (parseHeaders headerData !! k) as [v|] eqn:Hv; [|reflexivity].
  destruct (parseHeaders_lookup_names headerData k) as [_ Hin]; [by rewrite Hv|].
  by destruct Hk.
Qed.

(** X10: the headers [Data] reads are found under their exact names only.
    When no line of the header block that can start a header has the trimmed
    name [Subject], [Content-Type] or [Attachments], spelled with these
    capitals, the request is posted with an empty subject, as plain text and
    with no attachment, whatever else the header block holds. *)
Theorem headers_spelled_otherwise_are_ignored
    (env : Env) (s : Session) (data : string) :
  let names := candidate_names (Split (header_block data) CRLF) in
  "Subject" ∉ names → "Content-Type" ∉ names → "Attachments" ∉ names →
  request (Data env s (submitted data)) =
  Some {| users.message :=
            {| models.subject := "";
               models.body := {| models.content := body_segment data;
                                 models.contentType := models.TEXT_BODYTYPE |};
               models.toRecipients := toRecipients_of (loopvar env) (to s);
               models.attachments := [] |};
          users.saveToSentItems := true |}.
Proof.
  intros names Hs Hc Ha. rewrite request_submitted. unfold translated.
  unfold contentType_of, load_attachments.
  by rewrite !map_get_unlisted by done.
Qed.

(** X10 at a message whose three headers are spelled in lower case. *)
Lemma headers_spelled_otherwise_are_ignored_witness :
  let raw := "subject: Hi" +:+ CRLF +:+ "content-type: text/html" +:+ CRLF +:+
             "attachments: /etc/motd" +:+ CRLFCRLF +:+ "<p>Hi</p>" in
  candidate_names (Split (header_block raw) CRLF)
  = ["subject"; "content-type"; "attachments"] ∧
  request (Data example_env NewSession (submitted raw)) =
  Some {| users.message :=
            {| models.subject := "";
               models.body := {| models.content := "<p>Hi</p>";
                                 models.contentType := models.TEXT_BODYTYPE |};
               models.toRecipients := [];
               models.attachments := [] |};
          users.saveToSentItems := true |}.
Proof.
  intros raw. split; [vm_compute; reflexivity|].
  rewrite (headers_spelled_otherwise_are_ignored example_env NewSession raw).
  - vm_compute. reflexivity.
  - apply (bool_decide_unpack _). vm_compute. exact I.
  - apply (bool_decide_unpack _). vm_compute. exact I.
  - apply (bool_decide_unpack _). vm_compute. exact I.
Defined.

(** ** Empty lines *)

Lemma parse_loop_skips_empty (lines : list string) (st : ParseState) :
  fold_left parseHeaders_line lines st
  = fold_left parseHeaders_line (filter (fun line => line ≠ "") lines) st.
Proof.
  revert st. induction lines as [|line rest IH]; intros st; [reflexivity|].
  destruct (decide (line = "")) as [->|Hne].
  - rewrite filter_cons_False by (intros H; by apply H).
    simpl fold_left. rewrite parseHeaders_line_empty. apply IH.
  - rewrite filter_cons_True by done. simpl fold_left. apply IH.
Qed.

(** X11: empty lines never matter to [parseHeaders]: two header blocks
    whose lines, the empty ones left out, are the same give the same map,
    whether the other lines are well-formed or not. *)
Theorem empty_lines_never_matter (headerData headerData' : string) :
  filter (fun line => line ≠ "") (Split headerData CRLF)
  = filter (fun line => line ≠ "") (Split headerData' CRLF) →
  parseHeaders headerData = parseHeaders headerData'.
Proof.
  intros H. rewrite !parseHeaders_flush.
  rewrite (parse_loop_skips_empty (Split headerData CRLF)).
  rewrite (parse_loop_skips_empty (Split headerData' CRLF)).
  by rewrite H.
Qed.

(** X11 at a block that ends with a line break and one that starts with
    one. *)
Lemma empty_lines_never_matter_witness :
  let a := "Subject: Hi" +:+ CRLF +:+ "no colon" +:+ CRLF in
  let b := CRLF +:+ "Subject: Hi" +:+ CRLF +:+ CRLF +:+ "no colon" in
  Split a CRLF = ["Subject: Hi"; "no colon"; ""] ∧
  Split b CRLF = [""; "Subject: Hi"; ""; "no colon"] ∧
  parseHeaders a = parseHeaders b.
Proof.
  intros a b. split_and!; [vm_compute; reflexivity..|].
  apply (empty_lines_never_matter a b). vm_compute. reflexivity.
Defined.
